(** * Bulk form submission engine of the Eloqua admin toolbox

    A shallow embedding of [src/tools/FormBulkSubmitTool.ts] and of the part
    of [src/shared/validation.ts] it calls, with the properties of the
    bulk-submission engine stated and proved over it.

    Conventions of the embedding.
    - A JavaScript string is a [string]; every character stands for one
      UTF-16 code unit in the range U+0000..U+00FF.
    - A JavaScript number that is an index, a length or an HTTP status is a
      [nat] or a [Z]; a number that goes through floating-point arithmetic
      (elapsed times, rates, averages) is a binary64 [float].
    - A [Record<string, string>] is the list of its own enumerable
      properties in the order [Object.entries] yields them.
    - Effects (progress messages, HTTP requests, timer delays) are recorded
      as a trace of [Event]s; the network and the scheduler are a [World]
      the functions read from.
    - The batch loop of [processBulkSubmissions] takes fuel, one unit per
      iteration; a run that does not end within its fuel has no result.
    - A promise that never settles is [Pending]; a run that awaits it has
      no result, whatever its fuel. *)

From Stdlib Require Import ZArith Floats Ascii String List Lia Bool.
From stdpp Require Import base option list strings.

Local Open Scope string_scope.
Local Open Scope list_scope.

(** ** JavaScript string primitives *)

Module JS.

Definition code (c : ascii) : nat := nat_of_ascii c.

(** White space and line terminators that [String.prototype.trim] strips,
    as far as they fall in U+0000..U+00FF: TAB, LF, VT, FF, CR, SP, NBSP. *)
Definition is_ws (c : ascii) : bool :=
  let n := code c in
  (n =? 9)%nat || (n =? 10)%nat || (n =? 11)%nat || (n =? 12)%nat
  || (n =? 13)%nat || (n =? 32)%nat || (n =? 160)%nat.

Definition is_empty (s : string) : bool :=
  match s with EmptyString => true | String _ _ => false end.

Fixpoint trimStart (s : string) : string :=
  match s with
  | String c r => if is_ws c then trimStart r else s
  | EmptyString => EmptyString
  end.

Fixpoint trimEnd (s : string) : string :=
  match s with
  | EmptyString => EmptyString
  | String c r =>
      let r' := trimEnd r in
      if is_ws c && is_empty r' then EmptyString else String c r'
  end.

Definition trim (s : string) : string := trimEnd (trimStart s).

Definition ascii_eqb (a b : ascii) : bool := Ascii.eqb a b.

(** [s.split(sep)] for a one-character separator. *)
Fixpoint split (sep : ascii) (s : string) : list string :=
  match s with
  | EmptyString => [EmptyString]
  | String c r =>
      if ascii_eqb c sep then EmptyString :: split sep r
      else match split sep r with
           | h :: t => String c h :: t
           | [] => [String c EmptyString]
           end
  end.

(** [parts.join(sep)]. *)
Fixpoint join (sep : string) (parts : list string) : string :=
  match parts with
  | [] => EmptyString
  | [p] => p
  | p :: rest => p +:+ sep +:+ join sep rest
  end.

Fixpoint startsWith (s prefix : string) : bool :=
  match prefix, s with
  | EmptyString, _ => true
  | String p pr, String c r => ascii_eqb c p && startsWith r pr
  | String _ _, EmptyString => false
  end.

Fixpoint last_char (s : string) : option ascii :=
  match s with
  | EmptyString => None
  | String c EmptyString => Some c
  | String _ r => last_char r
  end.

(** [s.endsWith(c)] for a one-character argument. *)
Definition endsWith_char (s : string) (c : ascii) : bool :=
  match last_char s with
  | Some d => ascii_eqb d c
  | None => false
  end.

Fixpoint includes_char (s : string) (c : ascii) : bool :=
  match s with
  | EmptyString => false
  | String d r => ascii_eqb d c || includes_char r c
  end.

Fixpoint drop_last (s : string) : string :=
  match s with
  | EmptyString => EmptyString
  | String _ EmptyString => EmptyString
  | String c r => String c (drop_last r)
  end.

(** [s.slice(1, -1)]. *)
Definition slice_1_m1 (s : string) : string :=
  match s with
  | EmptyString => EmptyString
  | String _ r => drop_last r
  end.

(** [s.replace(/c/g, by)] for a single literal character [c]. *)
Fixpoint replace_all_char (c : ascii) (by_ : string) (s : string) : string :=
  match s with
  | EmptyString => EmptyString
  | String d r =>
      if ascii_eqb d c then by_ +:+ replace_all_char c by_ r
      else String d (replace_all_char c by_ r)
  end.

Fixpoint drop_prefix (s prefix : string) : option string :=
  match prefix, s with
  | EmptyString, _ => Some s
  | String p pr, String c r => if ascii_eqb c p then drop_prefix r pr else None
  | String _ _, EmptyString => None
  end.

(** The text a replacement string stands for (GetSubstitution, for a
    string pattern, which has no capture groups): [$$] is a dollar sign,
    [$&] the matched text, [$`] what precedes the match and [$'] what
    follows it; any other code unit, a [$] before a digit included, stands
    for itself. *)
Fixpoint get_substitution (matched before after : string) (replacement : string)
    : string :=
  match replacement with
  | EmptyString => EmptyString
  | String c r =>
      if ascii_eqb c "$"%char then
        match r with
        | String d r' =>
            if ascii_eqb d "$"%char then
              String "$"%char (get_substitution matched before after r')
            else if ascii_eqb d "&"%char then
              matched +:+ get_substitution matched before after r'
            else if ascii_eqb d "`"%char then
              before +:+ get_substitution matched before after r'
            else if ascii_eqb d "'"%char then
              after +:+ get_substitution matched before after r'
            else String c (get_substitution matched before after r)
        | EmptyString => String c EmptyString
        end
      else String c (get_substitution matched before after r)
  end.

(** [s.replace(pat, replacement)] for a string pattern: the first
    occurrence only.  [before] is the part of the string already passed. *)
Fixpoint replace_first_from (before : string) (pat replacement : string)
    (s : string) : string :=
  match drop_prefix s pat with
  | Some rest => get_substitution pat before rest replacement +:+ rest
  | None =>
      match s with
      | EmptyString => EmptyString
      | String c r =>
          String c (replace_first_from (before +:+ String c EmptyString) pat replacement r)
      end
  end.

Definition replace_first (pat replacement : string) (s : string) : string :=
  replace_first_from EmptyString pat replacement s.

Definition is_digit (c : ascii) : bool :=
  (48 <=? code c)%nat && (code c <=? 57)%nat.

Fixpoint all_chars (p : ascii -> bool) (s : string) : bool :=
  match s with
  | EmptyString => true
  | String c r => p c && all_chars p r
  end.

End JS.

(** ** CSV records: [parseCsvLine] *)

Definition dquote : ascii := Eval cbv in ascii_of_nat 34.
Definition comma : ascii := ","%char.

(** The body of the [for] loop of [parseCsvLine], with the rest of the line
    still to read, the fields pushed so far, the field under construction and
    the quote state.  The look-ahead at [line[i + 1]] is the nested
    match on [rest]; [i++] is the recursion on [rest']. *)
Fixpoint parseCsvLine_loop (line : string) (result : list string)
    (current : string) (inQuotes : bool) : list string :=
  match line with
  | EmptyString => result ++ [current]
  | String char rest =>
      if JS.ascii_eqb char dquote then
        match inQuotes, rest with
        | true, String c2 rest' =>
            if JS.ascii_eqb c2 dquote
            then parseCsvLine_loop rest' result (current +:+ String dquote EmptyString) inQuotes
            else parseCsvLine_loop rest result current (negb inQuotes)
        | _, _ => parseCsvLine_loop rest result current (negb inQuotes)
        end
      else if JS.ascii_eqb char comma && negb inQuotes then
        parseCsvLine_loop rest (result ++ [current]) EmptyString inQuotes
      else
        parseCsvLine_loop rest result (current +:+ String char EmptyString) inQuotes
  end.

Definition parseCsvLine (line : string) : list string :=
  parseCsvLine_loop line [] EmptyString false.

(** No double quote in [s]. *)
Definition quote_free (s : string) : bool := negb (JS.includes_char s dquote).

(** ** Results of code that may throw *)

(** What a JavaScript [throw] carries: an [Error] object with its [name] and
    [message], or some other value, given by its conversion to a string. *)
Inductive JsThrown : Type :=
| JsError (name message : string)
| JsNonError (repr : string).

Inductive Exc (A : Type) : Type :=
| Returned (a : A)
| Thrown (e : JsThrown).
Arguments Returned {A} a.
Arguments Thrown {A} e.

(** [throw new Error(msg)] *)
Definition throw_Error {A : Type} (msg : string) : Exc A :=
  Thrown (JsError "Error" msg).

(** ** [InputValidator] of [shared/validation.ts] *)

Module InputValidator.

Record ValidationResult : Type := {
  isValid : bool;
  errors : list string;
  sanitizedValue : option string
}.

(** Lower-case form of an ASCII letter, any other code unit unchanged:
    the comparison an [i] flag without [u] flag makes against a pattern of
    ASCII letters. *)
Definition to_lower (c : ascii) : ascii :=
  let n := JS.code c in
  if (65 <=? n)%nat && (n <=? 90)%nat then ascii_of_nat (n + 32) else c.

(** Does [s] start with [pat] (lower case), ignoring ASCII case?  Returns
    what follows. *)
Fixpoint drop_prefix_ci (s pat : string) : option string :=
  match pat, s with
  | EmptyString, _ => Some s
  | String p pr, String c r =>
      if JS.ascii_eqb (to_lower c) p then drop_prefix_ci r pr else None
  | String _ _, EmptyString => None
  end.

Definition gt : ascii := ">"%char.
Definition lt : ascii := "<"%char.

(** [[^>]*>]: the number of code units up to and including the first [>]. *)
Fixpoint upto_gt (s : string) : option nat :=
  match s with
  | EmptyString => None
  | String c r =>
      if JS.ascii_eqb c gt then Some 1
      else option_map S (upto_gt r)
  end.

Definition is_line_terminator (c : ascii) : bool :=
  (JS.code c =? 10)%nat || (JS.code c =? 13)%nat.

(** [.*?</script>] with the [i] flag: the number of code units up to and
    including the first closing tag, when no line terminator comes before
    it. *)
Fixpoint upto_close (s : string) : option nat :=
  match drop_prefix_ci s "</script>" with
  | Some _ => Some 9
  | None =>
      match s with
      | EmptyString => None
      | String c r =>
          if is_line_terminator c then None
          else option_map S (upto_close r)
      end
  end.

Fixpoint skipn_string (n : nat) (s : string) : string :=
  match n, s with
  | S k, String _ r => skipn_string k r
  | _, _ => s
  end.

(** Length of the match of [SCRIPT_REGEX], [/<script[^>]*>.*?<\/script>/gi],
    at the start of [s]. *)
Definition SCRIPT_REGEX (s : string) : option nat :=
  match drop_prefix_ci s "<script" with
  | None => None
  | Some r1 =>
      match upto_gt r1 with
      | None => None
      | Some n1 =>
          match upto_close (skipn_string n1 r1) with
          | None => None
          | Some n2 => Some (7 + n1 + n2)
          end
      end
  end.

(** Length of the match of [HTML_TAGS_REGEX], [/<[^>]*>/g], at the start of
    [s]. *)
Definition HTML_TAGS_REGEX (s : string) : option nat :=
  match s with
  | String c r => if JS.ascii_eqb c lt then option_map S (upto_gt r) else None
  | EmptyString => None
  end.

(** [s.replace(re, '')] for a global regular expression given by the
    length of its match at a position: matches are looked for from left to
    right, each search starting where the previous match ended.  [skip]
    counts the code units of the current match still to drop. *)
Fixpoint remove_matches (re : string -> option nat) (skip : nat) (s : string) : string :=
  match s with
  | EmptyString => EmptyString
  | String c r =>
      match skip with
      | S k => remove_matches re k r
      | O =>
          match re s with
          | Some (S k) => remove_matches re k r
          | _ => String c (remove_matches re 0 r)
          end
      end
  end.

Definition sanitizeHtml (input : string) : string :=
  if JS.is_empty input then EmptyString
  else
    let s := remove_matches SCRIPT_REGEX 0 input in
    let s := remove_matches HTML_TAGS_REGEX 0 s in
    let s := JS.replace_all_char "&"%char "&amp;" s in
    let s := JS.replace_all_char "<"%char "&lt;" s in
    let s := JS.replace_all_char ">"%char "&gt;" s in
    let s := JS.replace_all_char dquote "&quot;" s in
    let s := JS.replace_all_char "'"%char "&#x27;" s in
    JS.replace_all_char "/"%char "&#x2F;" s.

(** [startsWith('=') || startsWith('@') || startsWith('+') || startsWith('-')] *)
Definition starts_dangerous (s : string) : bool :=
  JS.startsWith s "=" || JS.startsWith s "@" || JS.startsWith s "+"
  || JS.startsWith s "-".

(** [s.replace(/^"/, '')] and [s.replace(/"$/, '')] *)
Definition strip_leading_quote (s : string) : string :=
  match s with
  | String c r => if JS.ascii_eqb c dquote then r else s
  | EmptyString => s
  end.
Definition strip_trailing_quote (s : string) : string :=
  if JS.endsWith_char s dquote then JS.drop_last s else s.

(** The predicate of [cells.some(...)] in the injection check. *)
Definition dangerous_cell (cell : string) : bool :=
  let cleanCell := strip_trailing_quote (strip_leading_quote (JS.trim cell)) in
  starts_dangerous cleanCell.

Definition dangerous_line (line : string) : bool :=
  existsb dangerous_cell (JS.split comma line).

Definition dangerousCells (lines : list string) : bool :=
  existsb dangerous_line lines.

Definition newline : ascii := Eval cbv in ascii_of_nat 10.
Definition nl : string := String newline EmptyString.

Definition sanitize_cell (cell : string) : string :=
  let cleanCell := JS.trim cell in
  let cleanCell :=
    if JS.startsWith cleanCell (String dquote EmptyString)
       && JS.endsWith_char cleanCell dquote
    then JS.slice_1_m1 cleanCell else cleanCell in
  let cleanCell :=
    if starts_dangerous cleanCell then "'" +:+ cleanCell else cleanCell in
  let cleanCell := sanitizeHtml cleanCell in
  if JS.includes_char cleanCell comma || JS.includes_char cleanCell dquote
     || JS.includes_char cleanCell newline
  then String dquote
         (JS.replace_all_char dquote (String dquote (String dquote EmptyString)) cleanCell
          +:+ String dquote EmptyString)
  else cleanCell.

Definition sanitize_line (line : string) : string :=
  JS.join "," (map sanitize_cell (JS.split comma line)).

Definition push_if (b : bool) (msg : string) (errors : list string) : list string :=
  if b then errors ++ [msg] else errors.

Definition validateCsvData (csvData : string) : ValidationResult :=
  if JS.is_empty csvData then
    {| isValid := false; errors := ["CSV data is required"]; sanitizedValue := None |}
  else
    let trimmedData := JS.trim csvData in
    if JS.is_empty trimmedData then
      {| isValid := false; errors := ["CSV data cannot be empty"]; sanitizedValue := None |}
    else
      let errors := [] in
      let errors :=
        push_if (10485760 <? Z.of_nat (String.length trimmedData))%Z
                "CSV data is too large" errors in
      let lines := JS.split newline trimmedData in
      let errors :=
        push_if (length lines <? 2)%nat
                "CSV must contain at least a header row and one data row" errors in
      let errors :=
        push_if (dangerousCells lines)
                "CSV contains potentially dangerous formulas" errors in
      let sanitizedLines := map sanitize_line lines in
      {| isValid := (length errors =? 0)%nat;
         errors := errors;
         sanitizedValue := Some (JS.join nl sanitizedLines) |}.

End InputValidator.

(** ** Rows: [Record<string, string>] objects *)

(** A row is the list of its own properties in [Object.entries] order. *)
Definition Row : Type := list (string * string).

Module Obj.

Fixpoint digits_value (s : string) (acc : N) : N :=
  match s with
  | EmptyString => acc
  | String c r => digits_value r (acc * 10 + (N.of_nat (JS.code c) - 48))%N
  end.

(** Is the property key an array index, a canonical decimal numeral of an
    integer in 0 .. 2^32 - 2?  Such keys are enumerated first, in
    ascending numeric order. *)
Definition array_index (k : string) : option N :=
  match k with
  | EmptyString => None
  | String c r =>
      if JS.all_chars JS.is_digit k
         && (JS.is_empty r || negb (JS.ascii_eqb c "0"%char))
         && (String.length k <=? 10)%nat
         && (digits_value k 0 <=? 4294967294)%N
      then Some (digits_value k 0) else None
  end.

Fixpoint has_key (o : Row) (k : string) : bool :=
  match o with
  | [] => false
  | (k', _) :: rest => String.eqb k' k || has_key rest k
  end.

Fixpoint update (o : Row) (k v : string) : Row :=
  match o with
  | [] => []
  | (k', v') :: rest =>
      if String.eqb k' k then (k', v) :: rest else (k', v') :: update rest k v
  end.

(** Where a new array-index key goes: before the first key that is not an
    array index or is a larger one. *)
Fixpoint insert_index (o : Row) (i : N) (k v : string) : Row :=
  match o with
  | [] => [(k, v)]
  | (k', v') :: rest =>
      match array_index k' with
      | Some j => if (j <? i)%N then (k', v') :: insert_index rest i k v
                  else (k, v) :: o
      | None => (k, v) :: o
      end
  end.

(** [o[k] = v] on an ordinary object whose properties are all strings:
    an existing property keeps its place; a new one is enumerated after
    the others, array indices apart; assigning a string to [__proto__]
    creates no property. *)
Definition set (o : Row) (k v : string) : Row :=
  if String.eqb k "__proto__" then o
  else if has_key o k then update o k v
  else match array_index k with
       | Some i => insert_index o i k v
       | None => o ++ [(k, v)]
       end.

(** [Object.keys(o).length] *)
Definition keys_length (o : Row) : nat := length o.

End Obj.

(** ** [URLSearchParams] *)

Module URLSearchParams.

Definition hex_digit (n : nat) : ascii :=
  if (n <? 10)%nat then ascii_of_nat (48 + n) else ascii_of_nat (55 + n).

Definition percent_byte (n : nat) : string :=
  String "%"%char (String (hex_digit (n / 16)) (String (hex_digit (n mod 16)) EmptyString)).

(** Code units left as they are by the [application/x-www-form-urlencoded]
    serializer: ASCII letters and digits, [*], [-], [.], [_]. *)
Definition unreserved (c : ascii) : bool :=
  let n := JS.code c in
  ((48 <=? n) && (n <=? 57) || (65 <=? n) && (n <=? 90)
   || (97 <=? n) && (n <=? 122)
   || (n =? 42) || (n =? 45) || (n =? 46) || (n =? 95))%nat.

(** One code unit, serialized: a space becomes [+]; a code unit above
    U+007F is percent-encoded through its two UTF-8 bytes. *)
Definition encode_char (c : ascii) : string :=
  let n := JS.code c in
  if unreserved c then String c EmptyString
  else if (n =? 32)%nat then "+"
  else if (n <? 128)%nat then percent_byte n
  else percent_byte (192 + n / 64) +:+ percent_byte (128 + n mod 64).

Fixpoint encode (s : string) : string :=
  match s with
  | EmptyString => EmptyString
  | String c r => encode_char c +:+ encode r
  end.

Definition encode_pair (p : string * string) : string :=
  encode (fst p) +:+ "=" +:+ encode (snd p).

(** [params.toString()] *)
Definition toString (params : list (string * string)) : string :=
  JS.join "&" (map encode_pair params).

End URLSearchParams.

(** ** [buildEloquaUrl] *)

Definition ELOQUA_BASE_URL : string := "https://s{siteId}.t.eloqua.com/e/f2".

Definition buildEloquaUrl (siteId elqFormName : string) (csvData : Row)
    (rowNumber : nat) : string :=
  let baseUrl := JS.replace_first "{siteId}" siteId ELOQUA_BASE_URL in
  let params := [] in
  let params := params ++ [("elqFormName", elqFormName)] in
  let params := params ++ [("elqSiteID", siteId)] in
  let params := fold_left (fun ps kv => ps ++ [(fst kv, snd kv)]) csvData params in
  baseUrl +:+ "?" +:+ URLSearchParams.toString params.

(** [validateSiteId]: [/^\d+$/.test(siteId)] *)
Definition validateSiteId (siteId : string) : bool :=
  negb (JS.is_empty siteId) && JS.all_chars JS.is_digit siteId.

(** ** JavaScript numbers *)

Module Num.

Local Open Scope float_scope.

(** An integer of magnitude below 2^63 as a number (exact below 2^53). *)
Definition of_Z (z : Z) : float :=
  if (z <? 0)%Z then - (PrimFloat.of_uint63 (Uint63.of_Z (- z)))
  else PrimFloat.of_uint63 (Uint63.of_Z z).

Definition of_nat (n : nat) : float := of_Z (Z.of_nat n).

(** [Math.round]: the integer nearest to [x], a tie going up; computed
    exactly on the significand and exponent of [x].  Zeros, infinities
    and NaN are returned unchanged, as are the finite numbers with a
    non-negative exponent, which are integers. *)
Definition Math_round (x : float) : float :=
  match Prim2SF x with
  | S754_finite s m e =>
      if (0 <=? e)%Z then x
      else
        let v := if s then Z.neg m else Z.pos m in
        let r := ((2 * v + 2 ^ (- e)) / 2 ^ (- e + 1))%Z in
        if (r =? 0)%Z then (if s then - 0 else 0) else of_Z r
  | _ => x
  end.

End Num.

(** ** The environment: network, timers, scheduler *)

Record Request : Type := {
  req_url : string;
  req_method : string;
  req_headers : list (string * string);
  (** the entries of the [URLSearchParams] object given as [body] *)
  req_body : list (string * string)
}.

(** The body on the wire. *)
Definition wire_body (r : Request) : string := URLSearchParams.toString (req_body r).

(** How reading the response body, [await response.text()], ends: with the
    text or with a failure, [elapsed] milliseconds after the request was
    started, or not at all.  The abort timer is cleared before the body is
    read, so nothing bounds that wait. *)
Inductive BodyRead : Type :=
| BodyText (elapsed : float) (text : string)
| BodyFails (elapsed : float) (e : JsThrown)
| BodyStalls.

(** What the network does with one request, left to itself: it answers
    after [latency] milliseconds with an HTTP status, it fails after
    [latency] milliseconds, or it never settles. *)
Inductive FetchBehaviour : Type :=
| Responds (latency : float) (status : Z) (body : BodyRead)
| FailsWith (latency : float) (e : JsThrown)
| Hangs.

(** Progress messages, with the numbers their templates interpolate. *)
Inductive ProgressMsg : Type :=
| MsgText (s : string)
| MsgFoundColumns (n : nat)
| MsgFoundRows (n : nat)
| MsgProcessed (processed total : nat) (percent : float).

Inductive Event : Type :=
| EvProgress (m : ProgressMsg)
| EvFetch (rowNumber : nat) (r : Request)
| EvDelay (ms : Z).

Record World : Type := {
  (** the behaviour of the network for the request of a row *)
  net : nat -> Request -> FetchBehaviour;
  (** the order in which the promises of the batch that starts at a given
      row index settle, as positions in the batch *)
  completion : nat -> list nat
}.

(** A settled promise, as [Promise.allSettled] reports it. *)
Inductive Settled (A : Type) : Type :=
| Fulfilled (value : A)
| Rejected (reason : JsThrown).
Arguments Fulfilled {A} value.
Arguments Rejected {A} reason.

(** What becomes of a promise: it settles, or it stays pending for ever. *)
Inductive Promise (A : Type) : Type :=
| Settles (s : Settled A)
| Pending.
Arguments Settles {A} s.
Arguments Pending {A}.

(** An [async] function body that returns or throws settles its promise. *)
Definition async {A : Type} (body : Exc A) : Settled A :=
  match body with
  | Returned a => Fulfilled a
  | Thrown e => Rejected e
  end.

(** [try { body } catch (error) { handler(error) }] *)
Definition try_catch {A : Type} (body : Exc A) (handler : JsThrown -> Exc A) : Exc A :=
  match body with
  | Returned a => Returned a
  | Thrown e => handler e
  end.

(** ** [processRow] *)

Record ProcessedRow : Type := {
  rowNumber : nat;
  success : bool;
  statusCode : option Z;
  processingTime : float;
  url : option string;
  parametersCount : nat;
  responseSize : option nat;
  error : option string;
  data : option Row
}.

Definition AbortError : JsThrown := JsError "AbortError" "The operation was aborted.".

(** The outcome of [await fetch(url, {..., signal})] with the abort timer
    [setTimeout(() => controller.abort(), timeout * 1000)] armed: the
    response or the failure of the network when it comes before the timer
    fires, the rejection with an [AbortError] when the timer fires.  The
    value is the elapsed time [performance.now() - startTime] at that moment
    with the response, or the thrown value.  The timer fires after
    [timeout * 1000] milliseconds, as [setTimeout] does for the timeouts the
    parameter schema allows (1 to 60 seconds). *)
Definition await_fetch (timeout : float) (b : FetchBehaviour) : Exc (float * Z * BodyRead) :=
  let timer := (timeout * 1000)%float in
  match b with
  | Responds latency status body =>
      if (latency <? timer)%float then Returned (latency, status, body)
      else Thrown AbortError
  | FailsWith latency e =>
      if (latency <? timer)%float then Thrown e else Thrown AbortError
  | Hangs => Thrown AbortError
  end.

(** [performance.now() - startTime] in the [catch] block. *)
Definition elapsed_at_catch (timeout : float) (b : FetchBehaviour) : float :=
  let timer := (timeout * 1000)%float in
  match b with
  | Responds latency _ body =>
      if (latency <? timer)%float then
        match body with
        | BodyFails t _ => t
        | BodyText _ _ | BodyStalls => latency
        end
      else timer
  | FailsWith latency _ => if (latency <? timer)%float then latency else timer
  | Hangs => timer
  end.

Definition fetch_request (siteId elqFormName : string) (rowData : Row)
    (rowNumber : nat) : Request :=
  {| req_url := buildEloquaUrl siteId elqFormName rowData rowNumber;
     req_method := "POST";
     req_headers := [("Content-Type", "application/x-www-form-urlencoded");
                     ("User-Agent", "EloquaAdminToolbox-BulkSubmit/1.0")];
     req_body := rowData |}.

(** The [try] block: how it ends, or [None] when it never does.  After
    [await fetch] has returned the response, [clearTimeout(timeoutId)]
    disarms the abort timer; [await response.text()] then waits for the
    body with nothing left to end the wait. *)
Definition processRow_try (w : World) (siteId elqFormName : string)
    (rowData : Row) (rowNumber : nat) (timeout : float)
    : option (Exc ProcessedRow) :=
  let targetUrl := buildEloquaUrl siteId elqFormName rowData rowNumber in
  let request := fetch_request siteId elqFormName rowData rowNumber in
  match await_fetch timeout (net w rowNumber request) with
  | Thrown e => Some (Thrown e)
  | Returned (processingTime, status, body) =>
      match body with
      | BodyStalls => None
      | BodyFails _ e => Some (Thrown e)
      | BodyText _ responseText =>
          Some (Returned {| rowNumber := rowNumber;
                            success := true;
                            statusCode := Some status;
                            processingTime := Num.Math_round processingTime;
                            url := Some targetUrl;
                            parametersCount := Obj.keys_length rowData;
                            responseSize := Some (String.length responseText);
                            error := None;
                            data := Some rowData |})
      end
  end.

(** The [catch] block. *)
Definition processRow_catch (w : World) (siteId elqFormName : string)
    (rowData : Row) (rowNumber : nat) (timeout : float) (error : JsThrown)
    : Exc ProcessedRow :=
  let request := fetch_request siteId elqFormName rowData rowNumber in
  let processingTime := elapsed_at_catch timeout (net w rowNumber request) in
  let errorMessage :=
    match error with
    | JsError name message =>
        if String.eqb name "AbortError" then "Request timeout"
        else "Network error: " +:+ message
    | JsNonError _ => "Unknown error"
    end in
  Returned {| rowNumber := rowNumber;
              success := false;
              statusCode := None;
              processingTime := Num.Math_round processingTime;
              url := None;
              parametersCount := Obj.keys_length rowData;
              responseSize := None;
              error := Some errorMessage;
              data := Some rowData |}.

(** [processRow]: the one request it sends, and what becomes of its
    promise.  The promise stays pending when the [try] block never ends. *)
Definition processRow (w : World) (siteId elqFormName : string)
    (rowData : Row) (rowNumber : nat) (timeout : float)
    : list Event * Promise ProcessedRow :=
  ([EvFetch rowNumber (fetch_request siteId elqFormName rowData rowNumber)],
   match processRow_try w siteId elqFormName rowData rowNumber timeout with
   | Some body =>
       Settles
         (async (try_catch body
                   (processRow_catch w siteId elqFormName rowData rowNumber timeout)))
   | None => Pending
   end).

(** The HTTP status of a request that completes: the response arrives
    before the abort timer fires and its body is read. *)
Definition completes (timeout : float) (b : FetchBehaviour) : option Z :=
  match await_fetch timeout b with
  | Returned (_, status, BodyText _ _) => Some status
  | _ => None
  end.

(** The abort timer fires: [fetch] has not settled when [timeout] seconds
    have passed. *)
Definition timer_fires (timeout : float) (b : FetchBehaviour) : bool :=
  match b with
  | Responds latency _ _ | FailsWith latency _ =>
      negb (latency <? timeout * 1000)%float
  | Hangs => true
  end.

(** The request exceeds the timeout: it has not ended, with the body read
    or with a failure, when [timeout] seconds have passed. *)
Definition exceeds_timeout (timeout : float) (b : FetchBehaviour) : bool :=
  match b with
  | Responds latency _ body =>
      negb (latency <? timeout * 1000)%float
      || match body with
         | BodyText elapsed _ | BodyFails elapsed _ =>
             negb (elapsed <? timeout * 1000)%float
         | BodyStalls => true
         end
  | FailsWith latency _ => negb (latency <? timeout * 1000)%float
  | Hangs => true
  end.

(** The response arrives before the abort timer fires, and the wait for
    its body never ends. *)
Definition stalls (timeout : float) (b : FetchBehaviour) : bool :=
  match await_fetch timeout b with
  | Returned (_, _, BodyStalls) => true
  | _ => false
  end.

(** A response whose body never ends, whenever it arrives. *)
Definition body_never_ends (b : FetchBehaviour) : bool :=
  match b with
  | Responds _ _ BodyStalls => true
  | _ => false
  end.

(** ** [processBulkSubmissions] *)

(** How a run ends: with a value, with an exception (and the trace up to
    it), or with no result at all (a promise that never settles, a loop that
    does not stop within the fuel given). *)
Inductive Run (A : Type) : Type :=
| Done (a : A)
| Raised (e : JsThrown) (trace : list Event)
| NoResult.
Arguments Done {A} a.
Arguments Raised {A} e trace.
Arguments NoResult {A}.

(** [arr[i] = v] on a JavaScript array: an index past the end extends the
    array, leaving holes in between. *)
Definition array_set {A : Type} (arr : list (option A)) (i : nat) (v : A)
    : list (option A) :=
  if (i <? length arr)%nat then <[i := Some v]> arr
  else arr ++ replicate (i - length arr) None ++ [Some v].

(** [arr.slice(from, to)] for [from <= to] *)
Definition slice {A : Type} (from to : nat) (arr : list A) : list A :=
  take (to - from) (drop from arr).

Fixpoint collect {A : Type} (slots : list (option A)) : option (list A) :=
  match slots with
  | [] => Some []
  | Some a :: rest => option_map (cons a) (collect rest)
  | None :: rest => None
  end.

(** [await Promise.allSettled(promises)]: each promise, when it settles,
    stores its result in the slot of its position; the combined promise
    resolves with the slots once all are filled, and stays pending as long
    as one of them stays pending.  [order] lists the positions in the order
    the promises settle. *)
Definition store {A : Type} (promises : list (Promise A))
    (slots : list (option (Settled A))) (k : nat) : list (option (Settled A)) :=
  match promises !! k with
  | Some (Settles p) => <[k := Some p]> slots
  | Some Pending | None => slots
  end.

Definition allSettled {A : Type} (order : list nat) (promises : list (Promise A))
    : option (list (Settled A)) :=
  collect (fold_left (store promises) order (replicate (length promises) None)).

Record Options : Type := {
  requestTimeout : float;
  delayBetweenRequests : Z;
  maxConcurrentRequests : nat
}.

Record OrchState : Type := {
  results : list (option ProcessedRow);
  processedCount : nat;
  trace : list Event
}.

(** [Error.prototype.toString], for the text of a rejection reason. *)
Definition reason_toString (e : JsThrown) : string :=
  match e with
  | JsError name message =>
      if JS.is_empty message then name
      else if JS.is_empty name then message
      else name +:+ ": " +:+ message
  | JsNonError repr => repr
  end.

(** The batch that starts at row index [i]:
    [csvRows.slice(i, i + max).map((row, batchIndex) => ({ row, index: i + batchIndex }))] *)
Definition batch_at (csvRows : list Row) (maxConcurrent i : nat) : list (Row * nat) :=
  imap (fun batchIndex row => (row, i + batchIndex))
       (slice i (i + maxConcurrent) csvRows).

Section Orchestrator.

Variable w : World.
Variables siteId elqFormName : string.
Variable options : Options.
Variable csvRows : list Row.

(** One step of [batchResults.forEach((result, batchIndex) => ...)]. *)
Definition record_result (batch : list (Row * nat))
    (result : Settled ProcessedRow) (batchIndex : nat) (st : OrchState)
    : Run OrchState :=
  match batch !! batchIndex with
  | None => Raised (JsError "TypeError" "Cannot read properties of undefined") (trace st)
  | Some (row, rowIndex) =>
      let entry :=
        match result with
        | Fulfilled value => value
        | Rejected reason =>
            {| rowNumber := rowIndex + 1;
               success := false;
               statusCode := None;
               processingTime := 0%float;
               url := None;
               parametersCount := Obj.keys_length row;
               responseSize := None;
               error := Some ("Promise rejected: " +:+ reason_toString reason);
               data := None |}
        end in
      let processedCount' := S (processedCount st) in
      Done {| results := array_set (results st) rowIndex entry;
              processedCount := processedCount';
              trace := trace st ++
                [EvProgress
                   (MsgProcessed processedCount' (length csvRows)
                      (Num.Math_round
                         ((Num.of_nat processedCount' / Num.of_nat (length csvRows)) * 100)%float))] |}
  end.

Fixpoint forEach_results (batch : list (Row * nat))
    (batchResults : list (Settled ProcessedRow)) (batchIndex : nat)
    (st : OrchState) : Run OrchState :=
  match batchResults with
  | [] => Done st
  | result :: rest =>
      match record_result batch result batchIndex st with
      | Done st' => forEach_results batch rest (S batchIndex) st'
      | other => other
      end
  end.

(** [processBatch]: the rows of the batch are handed to [processRow] one
    after the other, which sends their requests; the batch then waits for
    all of them and records the outcomes in batch order. *)
Definition processBatch (order : list nat) (batch : list (Row * nat))
    (st : OrchState) : Run OrchState :=
  let started :=
    map (fun item =>
           processRow w siteId elqFormName (fst item) (snd item + 1)
                      (requestTimeout options))
        batch in
  let st1 := {| results := results st;
                processedCount := processedCount st;
                trace := trace st ++ concat (map fst started) |} in
  match allSettled order (map snd started) with
  | None => NoResult
  | Some batchResults => forEach_results batch batchResults 0 st1
  end.

(** The [for] loop over the batches, from row index [i]. *)
Fixpoint batches_loop (fuel : nat) (i : nat) (st : OrchState) : Run OrchState :=
  match fuel with
  | O => NoResult
  | S fuel' =>
      if (i <? length csvRows)%nat then
        let batch := batch_at csvRows (maxConcurrentRequests options) i in
        match processBatch (completion w i) batch st with
        | Done st' =>
            let st'' :=
              if (0 <? delayBetweenRequests options)%Z
                 && (i + maxConcurrentRequests options <? length csvRows)%nat
              then {| results := results st';
                      processedCount := processedCount st';
                      trace := trace st' ++ [EvDelay (delayBetweenRequests options)] |}
              else st' in
            batches_loop fuel' (i + maxConcurrentRequests options) st''
        | other => other
        end
      else Done st
  end.

Definition processBulkSubmissions (fuel : nat) (trace0 : list Event)
    : Run OrchState :=
  batches_loop fuel 0 {| results := []; processedCount := 0; trace := trace0 |}.

End Orchestrator.

(** *** Vocabulary for the runs of the orchestrator *)

Definition is_delay (e : Event) : bool :=
  match e with EvDelay _ => true | _ => false end.

Definition is_fetch (e : Event) : bool :=
  match e with EvFetch _ _ => true | _ => false end.

Definition count_events (p : Event -> bool) (tr : list Event) : nat :=
  length (List.filter p tr).

(** The request event of an item [(row, index)] of a batch. *)
Definition fetch_event (siteId elqFormName : string) (item : Row * nat) : Event :=
  EvFetch (snd item + 1) (fetch_request siteId elqFormName (fst item) (snd item + 1)).

(** The progress message after [processed] rows out of [total]. *)
Definition progress_event (total processed : nat) : Event :=
  EvProgress
    (MsgProcessed processed total
       (Num.Math_round ((Num.of_nat processed / Num.of_nat total) * 100)%float)).

(** Every promise of every batch settles, in the order the world gives:
    the order of every batch lists all its positions, and no response has a
    body that never ends. *)
Definition all_settle (w : World) (csvRows : list Row) (maxConcurrent : nat) : Prop :=
  (forall i j, j < length (batch_at csvRows maxConcurrent i) -> j ∈ completion w i)
  /\ (forall n request, body_never_ends (net w n request) = false).

(** The slot of row [j] in the result array holds the outcome with which
    the promise of [processRow] for that row is fulfilled. *)
Definition outcome_recorded (w : World) (siteId elqFormName : string)
    (options : Options) (results : list (option ProcessedRow))
    (j : nat) (row : Row) : Prop :=
  exists r,
    results !! j = Some (Some r) /\
    snd (processRow w siteId elqFormName row (j + 1) (requestTimeout options))
      = Settles (Fulfilled r).

(** ** [calculateSummary] *)

Record BulkSubmitSummary : Type := {
  totalRows : nat;
  successfulRequests : nat;
  failedRequests : nat;
  successRate : float;
  totalProcessingTime : float;
  averageProcessingTime : float;
  averageResponseTime : float
}.

(** The sum [results.reduce((sum, r) => sum + r.processingTime, 0)]. *)
Definition sum_processingTime (results : list ProcessedRow) : float :=
  fold_left (fun sum r => (sum + processingTime r)%float) results 0%float.

(** The summary of an array of [length_] slots whose filled slots are
    [present]: [filter] and [reduce] visit the filled slots only, [length]
    counts them all. *)
Definition summary_of (length_ : nat) (present : list ProcessedRow)
    : BulkSubmitSummary :=
  let successfulRequests := length (List.filter (fun r => success r) present) in
  let failedRequests := length_ - successfulRequests in
  let totalProcessingTime := sum_processingTime present in
  let averageProcessingTime :=
    (totalProcessingTime / Num.of_nat length_)%float in
  {| totalRows := length_;
     successfulRequests := successfulRequests;
     failedRequests := failedRequests;
     successRate :=
       (Num.Math_round
          ((Num.of_nat successfulRequests / Num.of_nat length_) * 100 * 10) / 10)%float;
     totalProcessingTime := Num.Math_round totalProcessingTime;
     averageProcessingTime := (Num.Math_round (averageProcessingTime * 10) / 10)%float;
     averageResponseTime := (Num.Math_round (averageProcessingTime * 10) / 10)%float |}.

(** [calculateSummary] on an array without holes. *)
Definition calculateSummary (results : list ProcessedRow) : BulkSubmitSummary :=
  summary_of (length results) results.

(** The rates as the specification words them, in binary64 arithmetic:
    [round(successfulRequests / totalRows * 1000) / 10] and
    [round(sum(processingTimeMs) / totalRows * 10) / 10]. *)
Definition spec_successRate (successful total : nat) : float :=
  (Num.Math_round (Num.of_nat successful / Num.of_nat total * 1000) / 10)%float.

Definition spec_averageProcessingTime (sum : float) (total : nat) : float :=
  (Num.Math_round (sum / Num.of_nat total * 10) / 10)%float.

(** The success rate in tenths of a percent, rounded half up, computed
    exactly: the integer nearest to [1000 * successful / total]. *)
Definition exact_rate_tenths (successful total : Z) : Z :=
  ((2000 * successful + total) / (2 * total))%Z.

(** ** [parseCsvData] *)

(** The inner loop over the headers: [row[headers[j]] = sanitizedValue] for
    every column whose value is not blank. *)
Fixpoint build_row (headers : list string) (j : nat) (values : list string)
    (row : Row) : Row :=
  match headers with
  | [] => row
  | header :: rest =>
      let value := nth j values EmptyString in
      let row' :=
        if negb (JS.is_empty (JS.trim value))
        then Obj.set row header (InputValidator.sanitizeHtml (JS.trim value))
        else row in
      build_row rest (S j) values row'
  end.

(** The loop over the data lines, [lines[1]] onwards. *)
Fixpoint parse_rows (headers : list string) (lines : list string)
    (rows : list Row) : list Row :=
  match lines with
  | [] => rows
  | line :: rest =>
      let lineData := JS.trim line in
      if JS.is_empty lineData then parse_rows headers rest rows
      else
        let values := parseCsvLine lineData in
        let row := build_row headers 0 values [] in
        if (0 <? Obj.keys_length row)%nat
        then parse_rows headers rest (rows ++ [row])
        else parse_rows headers rest rows
  end.

Definition parseCsvData (csvData : string) : list Event * Exc (list Row) :=
  if JS.is_empty (JS.trim csvData) then ([], throw_Error "CSV data is empty")
  else
    let ev1 := [EvProgress (MsgText "Validating CSV data for security...")] in
    let csvValidation := InputValidator.validateCsvData csvData in
    if negb (InputValidator.isValid csvValidation) then
      (ev1, throw_Error ("CSV validation failed: "
                         +:+ JS.join ", " (InputValidator.errors csvValidation)))
    else
      match InputValidator.sanitizedValue csvValidation with
      | None => (ev1, Thrown (JsError "TypeError" "Cannot read properties of undefined"))
      | Some sanitizedCsvData =>
          let ev2 := ev1 ++ [EvProgress (MsgText "CSV data validated and sanitized successfully")] in
          let lines := JS.split InputValidator.newline (JS.trim sanitizedCsvData) in
          if (length lines <? 2)%nat then
            (ev2, throw_Error "CSV must have at least a header row and one data row")
          else
            let ev3 := ev2 ++ [EvProgress (MsgText "Parsing CSV headers...")] in
            let headers := parseCsvLine (nth 0 lines EmptyString) in
            if (length headers =? 0)%nat then
              (ev3, throw_Error "CSV must have column headers")
            else
              let ev4 := ev3 ++ [EvProgress (MsgFoundColumns (length headers))] in
              (ev4, Returned (parse_rows headers (drop 1 lines) []))
      end.

(** ** [execute] *)

Inductive Operation : Type := op_submit | op_get_examples | op_get_usage_guide.

Record FormBulkSubmitParameters : Type := {
  operation : option Operation;
  siteId : option string;
  elqFormName : option string;
  csvData : option string;
  requestTimeout_ : option float;
  delayBetweenRequests_ : option Z;
  validateOnly : option bool;
  maxConcurrentRequests_ : option nat;
  exampleType : option string
}.

(** The [ToolResult]s of [execute]; the message and the time stamp of a
    result are left out. *)
Inductive ToolResult : Type :=
| ResFailure (error : string)
| ResValidation (totalRows validRows : nat) (sampleUrls : list string)
| ResSubmitted (summary : BulkSubmitSummary) (results : list (option ProcessedRow))
| ResExamples (exampleType : string)
| ResUsageGuide.

(** A string parameter left [undefined], where a string is expected. *)
Definition str (s : option string) : string := default "undefined" s.

(** [error instanceof Error ? error.message : 'Unknown error occurred'] *)
Definition catch_message (e : JsThrown) : string :=
  match e with
  | JsError _ message => message
  | JsNonError _ => "Unknown error occurred"
  end.

Definition execute (fuel : nat) (w : World) (parameters : FormBulkSubmitParameters)
    : option (ToolResult * list Event) :=
  let operation := default op_submit (operation parameters) in
  let requestTimeout := default 10%float (requestTimeout_ parameters) in
  let delayBetweenRequests := default 100%Z (delayBetweenRequests_ parameters) in
  let validateOnly := default false (validateOnly parameters) in
  let maxConcurrentRequests := default 5 (maxConcurrentRequests_ parameters) in
  let exampleType := default "all" (exampleType parameters) in
  match operation with
  | op_get_examples => Some (ResExamples exampleType, [])
  | op_get_usage_guide => Some (ResUsageGuide, [])
  | op_submit =>
      let ev0 := [EvProgress (MsgText "Processing CSV data...")] in
      match parseCsvData (default EmptyString (csvData parameters)) with
      | (evs, Thrown e) => Some (ResFailure (catch_message e), ev0 ++ evs)
      | (evs, Returned csvRows) =>
          let ev1 := ev0 ++ evs in
          if (length csvRows =? 0)%nat then
            Some (ResFailure "No valid data rows found in CSV", ev1)
          else
            let ev2 := ev1 ++ [EvProgress (MsgFoundRows (length csvRows))] in
            if validateOnly then
              Some (ResValidation (length csvRows) (length csvRows)
                      (imap (fun index row =>
                               buildEloquaUrl (str (siteId parameters))
                                 (str (elqFormName parameters)) row (index + 1))
                            (slice 0 3 csvRows)),
                    ev2)
            else
              let ev3 := ev2 ++ [EvProgress (MsgText "Starting bulk form submissions...")] in
              match processBulkSubmissions w (str (siteId parameters))
                      (str (elqFormName parameters))
                      {| requestTimeout := requestTimeout;
                         delayBetweenRequests := delayBetweenRequests;
                         maxConcurrentRequests := maxConcurrentRequests |}
                      csvRows fuel ev3 with
              | NoResult => None
              | Raised e tr => Some (ResFailure (catch_message e), tr)
              | Done st =>
                  Some (ResSubmitted
                          (summary_of (length (results st)) (omap id (results st)))
                          (results st),
                        trace st)
              end
      end
  end.

(** ** Sample inputs *)

Module Sample.

Definition NL : string := InputValidator.nl.

(** A network that answers every request after 12.5 ms with status 200. *)
Definition world_ok : World :=
  {| net := fun _ _ => Responds 12.5%float 200 (BodyText 13%float "OK");
     completion := fun _ => [1; 0; 2; 4; 3] |}.


(** A network that answers every request with status 404. *)
Definition world_404 : World :=
  {| net := fun _ _ => Responds 30%float 404 (BodyText 31%float "Not Found");
     completion := fun _ => [0; 1; 2; 3; 4] |}.

(** A server that answers after 5 ms with status 200 and then never ends
    the body. *)
Definition world_stalled : World :=
  {| net := fun _ _ => Responds 5%float 200 BodyStalls;
     completion := fun _ => [0; 1; 2; 3; 4] |}.

(** A server that answers after 5 ms with status 200 and takes 20 seconds
    to send the body. *)
Definition world_slow_body : World :=
  {| net := fun _ _ => Responds 5%float 200 (BodyText 20000%float "OK");
     completion := fun _ => [0; 1; 2; 3; 4] |}.

Definition submit_params (csv : string) (validate : bool) (maxConcurrent : nat)
    : FormBulkSubmitParameters :=
  {| operation := Some op_submit;
     siteId := Some "100";
     elqFormName := Some "X";
     csvData := Some csv;
     requestTimeout_ := None;
     delayBetweenRequests_ := None;
     validateOnly := Some validate;
     maxConcurrentRequests_ := Some maxConcurrent;
     exampleType := None |}.

Definition csv_formula : string :=
  "name,total" +:+ NL +:+ "Ada,=SUM(A1:A2)".

Definition csv_five : string :=
  "a,b" +:+ NL +:+ "1,2" +:+ NL +:+ "3,4" +:+ NL +:+ "5,6"
  +:+ NL +:+ "7,8" +:+ NL +:+ "9,10".

(** A header and one data line whose cells are all blank. *)
Definition csv_blank_row : string := "a,b" +:+ NL +:+ ",".

Definition row_email : Row := [("email", "a@b.c")].

Definition options_2 : Options :=
  {| requestTimeout := 10%float; delayBetweenRequests := 100%Z;
     maxConcurrentRequests := 2 |}.

Definition rows_3 : list Row :=
  [[("a", "1"); ("b", "2")]; [("a", "3"); ("b", "4")]; [("a", "5"); ("b", "6")]].

Definition rows_2 : list Row :=
  [[("a", "1"); ("b", "2")]; [("a", "3"); ("b", "4")]].

Definition outcome (ok : bool) (ms : float) : ProcessedRow :=
  {| rowNumber := 1; success := ok; statusCode := None; processingTime := ms;
     url := None; parametersCount := 0; responseSize := None; error := None;
     data := None |}.

(** [ok] successes and [ko] failures, each of 10 ms. *)
Definition outcomes (ok ko : nat) : list ProcessedRow :=
  repeat (outcome true 10%float) ok ++ repeat (outcome false 10%float) ko.

End Sample.

(** ** Vocabulary for the properties of ingestion and encoding *)

(** None of the characters [<], [>], the double quote, ['] and [/]. *)
Definition markup_free (s : string) : bool :=
  negb (JS.includes_char s "<"%char) && negb (JS.includes_char s ">"%char)
  && negb (JS.includes_char s dquote) && negb (JS.includes_char s "'"%char)
  && negb (JS.includes_char s "/"%char).

(** Text that holds no character [sanitizeHtml] acts on. *)
Definition plain_text (s : string) : bool :=
  markup_free s && negb (JS.includes_char s "&"%char).

(** A field quoted the CSV way, as [validateCsvData] re-wraps a cell: the
    field between double quotes, its own double quotes doubled. *)
Definition csv_quote (field : string) : string :=
  String dquote
    (JS.replace_all_char dquote (String dquote (String dquote EmptyString)) field
     +:+ String dquote EmptyString).

Fixpoint count_char (c : ascii) (s : string) : nat :=
  match s with
  | EmptyString => 0
  | String d r => (if JS.ascii_eqb d c then 1 else 0) + count_char c r
  end.

(** The code units a serialized name or value is made of: the unreserved
    ones, [+] and [%]. *)
Definition url_safe (c : ascii) : bool :=
  URLSearchParams.unreserved c || JS.ascii_eqb c "+"%char || JS.ascii_eqb c "%"%char.

(** A cell that sanitization has nothing to do on: trimmed, without
    [&], markup characters or double quotes, and not starting like a
    formula. *)
Definition clean_cell (cell : string) : bool :=
  String.eqb (JS.trim cell) cell && plain_text cell
  && negb (InputValidator.starts_dangerous cell).

Definition clean_line (line : string) : bool :=
  forallb clean_cell (JS.split comma line).

Definition clean_csv (text : string) : bool :=
  forallb clean_line (JS.split InputValidator.newline text).

(** A property key that an assignment appends after the existing ones:
    neither an array index nor [__proto__]. *)
Definition ordinary_key (k : string) : bool :=
  negb (String.eqb k "__proto__")
  && match Obj.array_index k with Some _ => false | None => true end.

(** The headers zipped with the values by position, from column [j] on,
    blank values left out and the others trimmed and sanitized. *)
Fixpoint zipped_row (headers : list string) (j : nat) (values : list string) : Row :=
  match headers with
  | [] => []
  | header :: rest =>
      let value := nth j values EmptyString in
      if JS.is_empty (JS.trim value) then zipped_row rest (S j) values
      else (header, InputValidator.sanitizeHtml (JS.trim value))
           :: zipped_row rest (S j) values
  end.

(** ** Vocabulary for the traces of a run *)

Definition is_progress (e : Event) : bool :=
  match e with EvProgress _ => true | _ => false end.

(** The rows from index [i] on, each with its index. *)
Definition items_from (csvRows : list Row) (i : nat) : list (Row * nat) :=
  imap (fun k row => (row, i + k)) (drop i csvRows).

(** Scanning a trace for runs of consecutive events that satisfy [p]: the
    length of the run that ends the trace, and of the longest run. *)
Fixpoint run_scan (p : Event -> bool) (tr : list Event) (cur best : nat) : nat * nat :=
  match tr with
  | [] => (cur, best)
  | e :: rest =>
      if p e then run_scan p rest (S cur) (Nat.max best (S cur))
      else run_scan p rest 0 best
  end.

Definition longest_run (p : Event -> bool) (tr : list Event) : nat :=
  snd (run_scan p tr 0 0).

(** ** Reading back a serialized name or value *)

Definition hex_value (c : ascii) : option nat :=
  let n := JS.code c in
  if (48 <=? n)%nat && (n <=? 57)%nat then Some (n - 48)
  else if (65 <=? n)%nat && (n <=? 70)%nat then Some (n - 55)
  else if (97 <=? n)%nat && (n <=? 102)%nat then Some (n - 87)
  else None.

(** The inverse of the serializer, as the receiver of a form applies it:
    [+] is a space, [%XX] a byte, and two bytes that encode a code point
    up to U+00FF in UTF-8 are that code unit.  It is used to show that
    serialization loses nothing. *)
Fixpoint form_decode (s : string) : string :=
  match s with
  | EmptyString => EmptyString
  | String c r =>
      if JS.ascii_eqb c "+"%char then String " "%char (form_decode r)
      else if JS.ascii_eqb c "%"%char then
        match r with
        | String h1 (String h2 r2) =>
            match hex_value h1, hex_value h2 with
            | Some a, Some b =>
                let byte := 16 * a + b in
                if (byte <? 128)%nat then String (ascii_of_nat byte) (form_decode r2)
                else
                  match r2 with
                  | String p (String k1 (String k2 r5)) =>
                      match hex_value k1, hex_value k2 with
                      | Some a2, Some b2 =>
                          if JS.ascii_eqb p "%"%char then
                            String (ascii_of_nat ((byte - 192) * 64 + (16 * a2 + b2 - 128)))
                                   (form_decode r5)
                          else String c (form_decode r)
                      | _, _ => String c (form_decode r)
                      end
                  | _ => String c (form_decode r)
                  end
            | _, _ => String c (form_decode r)
            end
        | _ => String c (form_decode r)
        end
      else String c (form_decode r)
  end.


(** ** The serializer on all code units *)

(** [URLSearchParams] on strings of any UTF-16 code units, written as
    numbers: the string is first converted to scalar values (a surrogate
    pair is its code point, a surrogate without its partner becomes
    U+FFFD), each scalar value is written in UTF-8, and each byte is
    serialized as [application/x-www-form-urlencoded] does.
    [URLSearchParams.encode] above is this function on the strings of the
    embedding, whose code units stop at U+00FF. *)
Module USVString.

Definition is_high_surrogate (u : N) : bool := (55296 <=? u)%N && (u <=? 56319)%N.
Definition is_low_surrogate (u : N) : bool := (56320 <=? u)%N && (u <=? 57343)%N.

Fixpoint scalar_values (units : list N) : list N :=
  match units with
  | [] => []
  | u :: rest =>
      if is_high_surrogate u then
        match rest with
        | v :: rest' =>
            if is_low_surrogate v then
              (65536 + (u - 55296) * 1024 + (v - 56320))%N :: scalar_values rest'
            else 65533%N :: scalar_values rest
        | [] => [65533%N]
        end
      else if is_low_surrogate u then 65533%N :: scalar_values rest
      else u :: scalar_values rest
  end.

Definition utf8 (cp : N) : list N :=
  (if cp <? 128 then [cp]
   else if cp <? 2048 then [192 + cp / 64; 128 + cp mod 64]
   else if cp <? 65536 then
     [224 + cp / 4096; 128 + (cp / 64) mod 64; 128 + cp mod 64]
   else
     [240 + cp / 262144; 128 + (cp / 4096) mod 64; 128 + (cp / 64) mod 64;
      128 + cp mod 64])%N.

Definition encode_byte (b : N) : string :=
  let n := N.to_nat b in
  if (n <? 128)%nat then URLSearchParams.encode_char (ascii_of_nat n)
  else URLSearchParams.percent_byte n.

Definition encode (units : list N) : string :=
  fold_right (fun b rest => encode_byte b +:+ rest) EmptyString
    (flat_map utf8 (scalar_values units)).

(** The code units of a string of the embedding. *)
Fixpoint units_of (s : string) : list N :=
  match s with
  | EmptyString => []
  | String c r => N.of_nat (JS.code c) :: units_of r
  end.

(** The string of code units that are all at most U+00FF. *)
Fixpoint string_of (units : list N) : string :=
  match units with
  | [] => EmptyString
  | u :: rest => String (ascii_of_N u) (string_of rest)
  end.

End USVString.

(** ** Further validators of [shared/validation.ts] *)

From Stdlib Require Import DecimalString.

Module Validators.

Import InputValidator.

Definition is_lower (c : ascii) : bool := (97 <=? JS.code c)%nat && (JS.code c <=? 122)%nat.
Definition is_upper (c : ascii) : bool := (65 <=? JS.code c)%nat && (JS.code c <=? 90)%nat.

(** [[a-zA-Z0-9._-]] and [[a-zA-Z0-9.-]] *)
Definition filename_char (c : ascii) : bool :=
  is_lower c || is_upper c || JS.is_digit c
  || JS.ascii_eqb c "."%char || JS.ascii_eqb c "_"%char || JS.ascii_eqb c "-"%char.

Definition sitename_char (c : ascii) : bool :=
  is_lower c || is_upper c || JS.is_digit c
  || JS.ascii_eqb c "."%char || JS.ascii_eqb c "-"%char.

(** [/^[class]+$/.test(s)] *)
Definition all_of_class (class : ascii -> bool) (s : string) : bool :=
  negb (JS.is_empty s) && JS.all_chars class s.

Definition FILENAME_REGEX : string -> bool := all_of_class filename_char.
Definition SITENAME_REGEX : string -> bool := all_of_class sitename_char.

(** Is [s.toUpperCase()] the ASCII string [r]?  An ASCII letter has its
    upper-case form, the sharp s becomes [SS], and the upper-case form of
    any other code unit above U+007F is not ASCII. *)
Fixpoint upper_is (s r : string) : bool :=
  match s with
  | EmptyString => JS.is_empty r
  | String c s' =>
      if (JS.code c =? 223)%nat then
        match r with
        | String d1 (String d2 r') =>
            JS.ascii_eqb d1 "S"%char && JS.ascii_eqb d2 "S"%char && upper_is s' r'
        | _ => false
        end
      else if (JS.code c <? 128)%nat then
        match r with
        | String d r' =>
            JS.ascii_eqb (if is_lower c then ascii_of_nat (JS.code c - 32) else c) d
            && upper_is s' r'
        | EmptyString => false
        end
      else false
  end.

Definition reservedNames : list string :=
  ["CON"; "PRN"; "AUX"; "NUL"; "COM1"; "COM2"; "COM3"; "COM4"; "COM5"; "COM6";
   "COM7"; "COM8"; "COM9"; "LPT1"; "LPT2"; "LPT3"; "LPT4"; "LPT5"; "LPT6";
   "LPT7"; "LPT8"; "LPT9"].

(** [reservedNames.includes(trimmed.split('.')[0].toUpperCase())] *)
Definition uses_reserved_name (trimmedFilename : string) : bool :=
  let nameWithoutExtension := nth 0 (JS.split "."%char trimmedFilename) EmptyString in
  existsb (upper_is nameWithoutExtension) reservedNames.

Definition result (errors : list string) (value : string) : ValidationResult :=
  {| isValid := (length errors =? 0)%nat; errors := errors; sanitizedValue := Some value |}.

Definition failure (msg : string) : ValidationResult :=
  {| isValid := false; errors := [msg]; sanitizedValue := None |}.

Definition validateFilename (filename : string) : ValidationResult :=
  if JS.is_empty filename then failure "Filename is required"
  else
    let trimmedFilename := JS.trim filename in
    if (String.length trimmedFilename =? 0)%nat then failure "Filename cannot be empty"
    else
      let errors := [] in
      let errors := push_if (255 <? String.length trimmedFilename)%nat
                            "Filename is too long" errors in
      let errors := push_if (negb (FILENAME_REGEX trimmedFilename))
                            "Filename contains invalid characters" errors in
      let errors := push_if (uses_reserved_name trimmedFilename)
                            "Filename uses a reserved name" errors in
      result errors trimmedFilename.

Definition validateSiteName (siteName : string) : ValidationResult :=
  if JS.is_empty siteName then failure "Site name is required"
  else
    let trimmedSiteName := JS.trim siteName in
    if (String.length trimmedSiteName =? 0)%nat then failure "Site name cannot be empty"
    else
      let errors := [] in
      let errors := push_if (50 <? String.length trimmedSiteName)%nat
                            "Site name is too long" errors in
      let errors := push_if (negb (SITENAME_REGEX trimmedSiteName))
                            "Site name contains invalid characters" errors in
      result errors trimmedSiteName.

(** [String(n)] for a natural number. *)
Definition Number_toString (n : nat) : string := NilZero.string_of_uint (Nat.to_uint n).

Definition validateText (text : string) (maxLength : nat) : ValidationResult :=
  if JS.is_empty text then
    {| isValid := true; errors := []; sanitizedValue := Some EmptyString |}
  else
    let trimmedText := JS.trim text in
    let errors := [] in
    let errors := push_if (maxLength <? String.length trimmedText)%nat
                    ("Text is too long (max " +:+ Number_toString maxLength
                     +:+ " characters)") errors in
    let sanitizedText := sanitizeHtml trimmedText in
    result errors sanitizedText.

(** [s.includes(sub)] *)
Fixpoint includes (s sub : string) : bool :=
  JS.startsWith s sub
  || match s with
     | EmptyString => false
     | String _ r => includes r sub
     end.

Definition allowedPaths : list string :=
  ["/api/REST/1.0/"; "/api/REST/2.0/"; "/api/bulk/1.0/"; "/api/bulk/2.0/"].

(** [EloquaApiValidator.validateApiEndpoint] *)
Definition validateApiEndpoint (endpoint : string) : ValidationResult :=
  if JS.is_empty endpoint then failure "API endpoint is required"
  else
    let trimmedEndpoint := JS.trim endpoint in
    let errors := [] in
    let errors := push_if (negb (JS.startsWith trimmedEndpoint "/"))
                          "API endpoint must start with /" errors in
    let errors := push_if (includes trimmedEndpoint "..")
                          "API endpoint contains invalid path traversal" errors in
    let isAllowedPath := existsb (fun path => JS.startsWith trimmedEndpoint path) allowedPaths in
    let errors := push_if (negb isAllowedPath)
                          "API endpoint is not in allowed paths" errors in
    result errors trimmedEndpoint.

(** [s.toLowerCase()] on code units up to U+00FF: the ASCII capitals and
    the capitals U+00C0..U+00DE, the multiplication sign apart. *)
Definition lower_char (c : ascii) : ascii :=
  let n := JS.code c in
  if is_upper c then ascii_of_nat (n + 32)
  else if (192 <=? n)%nat && (n <=? 222)%nat && negb (n =? 215)%nat
  then ascii_of_nat (n + 32)
  else c.

Fixpoint toLowerCase (s : string) : string :=
  match s with
  | EmptyString => EmptyString
  | String c r => String (lower_char c) (toLowerCase r)
  end.

(** [[^\s@]] *)
Definition email_char (c : ascii) : bool :=
  negb (JS.is_ws c) && negb (JS.ascii_eqb c "@"%char).

(** [[^\s@]+$], then [[^\s@]+\.[^\s@]+$] after [seen] characters of the
    class, then the whole [EMAIL_REGEX], [/^[^\s@]+@[^\s@]+\.[^\s@]+$/],
    after [seen] characters of the local part. *)
Definition email_tail (s : string) : bool := all_of_class email_char s.

Fixpoint email_domain (seen : bool) (s : string) : bool :=
  match s with
  | EmptyString => false
  | String c r =>
      email_char c
      && ((JS.ascii_eqb c "."%char && seen && email_tail r) || email_domain true r)
  end.

Fixpoint email_local (seen : bool) (s : string) : bool :=
  match s with
  | EmptyString => false
  | String c r =>
      if JS.ascii_eqb c "@"%char then seen && email_domain false r
      else email_char c && email_local true r
  end.

Definition EMAIL_REGEX (s : string) : bool := email_local false s.

Definition validateEmail (email : string) : ValidationResult :=
  if JS.is_empty email then failure "Email is required"
  else
    let trimmedEmail := toLowerCase (JS.trim email) in
    if (String.length trimmedEmail =? 0)%nat then failure "Email cannot be empty"
    else
      let errors := [] in
      let errors := push_if (254 <? String.length trimmedEmail)%nat
                            "Email is too long" errors in
      let errors := push_if (negb (EMAIL_REGEX trimmedEmail))
                            "Invalid email format" errors in
      result errors trimmedEmail.

End Validators.

(** * Properties *)

(** ** Strings *)

Lemma append_nil_l (s : string) : EmptyString +:+ s = s.
Proof. reflexivity. Qed.

Lemma append_cons (c : ascii) (s t : string) :
  String c s +:+ t = String c (s +:+ t).
Proof. reflexivity. Qed.

Lemma append_empty_r (s : string) : s +:+ EmptyString = s.
Proof.
  induction s as [|c s IH]; [reflexivity|].
  now rewrite append_cons, IH.
Qed.

Lemma append_assoc (a b c : string) : (a +:+ b) +:+ c = a +:+ (b +:+ c).
Proof.
  induction a as [|x a IH]; [reflexivity|].
  now rewrite !append_cons, IH.
Qed.

Lemma append_snoc (a : string) (c : ascii) (r : string) :
  (a +:+ String c EmptyString) +:+ r = a +:+ String c r.
Proof. now rewrite append_assoc. Qed.

(** Induction along a loop that reads one code unit, or two at once. *)
Lemma string_ind_skip (P : string -> Prop) :
  P EmptyString ->
  (forall c rest,
      P rest ->
      (forall c2 rest', rest = String c2 rest' -> P rest') ->
      P (String c rest)) ->
  forall s, P s.
Proof.
  intros H0 Hstep s.
  enough (P s /\ (forall c2 rest', s = String c2 rest' -> P rest')) by tauto.
  induction s as [|c rest [IH1 IH2]].
  - split; [exact H0 | discriminate].
  - split.
    + apply Hstep; assumption.
    + intros c2 rest' E. now inversion E; subst.
Qed.

(** ** [parseCsvLine] *)

Section ParseCsvLine.

Lemma quote_free_cons c s :
  quote_free (String c s) = true ->
  JS.ascii_eqb c dquote = false /\ quote_free s = true.
Proof.
  unfold quote_free; simpl.
  destruct (JS.ascii_eqb c dquote); simpl; intros H; [discriminate | auto].
Qed.

Lemma quote_free_app a b :
  quote_free (a +:+ b) = quote_free a && quote_free b.
Proof.
  unfold quote_free.
  induction a as [|c a IH]; [reflexivity|].
  rewrite append_cons; simpl.
  destruct (JS.ascii_eqb c dquote); simpl; [reflexivity | exact IH].
Qed.

(** The loop always ends by pushing the field under construction. *)
Lemma loop_nonempty line : forall result current inQuotes,
  exists fields last_field,
    parseCsvLine_loop line result current inQuotes = fields ++ [last_field].
Proof.
  induction line as [|c rest IH IH2] using string_ind_skip;
    intros result current inQuotes; simpl.
  - eauto.
  - destruct (JS.ascii_eqb c dquote).
    + destruct inQuotes; [destruct rest as [|c2 rest']|]; try apply IH.
      destruct (JS.ascii_eqb c2 dquote); [|apply IH].
      now apply (IH2 c2 rest').
    + destruct (JS.ascii_eqb c comma && negb inQuotes); apply IH.
Qed.

(** Inside an open quote, text without quotes is taken whole, commas
    included, into the field under construction. *)
Lemma loop_quoted_app inner : forall rest result current,
  quote_free inner = true ->
  parseCsvLine_loop (inner +:+ rest) result current true =
  parseCsvLine_loop rest result (current +:+ inner) true.
Proof.
  induction inner as [|c inner IH]; intros rest result current Hq.
  - now rewrite append_nil_l, append_empty_r.
  - apply quote_free_cons in Hq as [Hc Hq].
    rewrite append_cons. simpl.
    rewrite Hc, andb_false_r, IH by assumption.
    now rewrite append_snoc.
Qed.

Lemma loop_open_quote tail result current :
  quote_free tail = true ->
  parseCsvLine_loop tail result current true = result ++ [current +:+ tail].
Proof.
  intros Hq. rewrite <- (append_empty_r tail) at 1.
  now rewrite loop_quoted_app.
Qed.

(** Outside quotes, the line read so far fixes the fields pushed and the
    field under construction; the rest of the line goes on from there. *)
Lemma loop_unquoted_app pre : forall rest result current,
  quote_free pre = true ->
  parseCsvLine_loop (pre +:+ rest) result current false =
  parseCsvLine_loop rest
    (removelast (parseCsvLine_loop pre result current false))
    (List.last (parseCsvLine_loop pre result current false) EmptyString)
    false.
Proof.
  induction pre as [|c pre IH]; intros rest result current Hq.
  - simpl. now rewrite removelast_last, last_last.
  - apply quote_free_cons in Hq as [Hc Hq].
    rewrite append_cons. simpl. rewrite Hc.
    destruct (JS.ascii_eqb c comma); simpl; now apply IH.
Qed.

End ParseCsvLine.

(** C10. [parseCsvLine] is total and tolerant of malformed quoting: every
    line yields at least one field; after an opening quote that is never
    closed the rest of the line, commas included, extends the field under
    construction up to the end of the line; and text read inside an open
    quote, its commas included, is added to the field without ending it. *)
Theorem parseCsvLine_total_tolerant :
  (forall line, exists field fields, parseCsvLine line = field :: fields) /\
  (forall pre tail,
      quote_free pre = true -> quote_free tail = true ->
      parseCsvLine (pre +:+ String dquote tail) =
      removelast (parseCsvLine pre)
        ++ [List.last (parseCsvLine pre) EmptyString +:+ tail]) /\
  (forall inner rest result current,
      quote_free inner = true ->
      parseCsvLine_loop (inner +:+ rest) result current true =
      parseCsvLine_loop rest result (current +:+ inner) true).
Proof.
  split; [|split].
  - intros line. unfold parseCsvLine.
    destruct (loop_nonempty line [] EmptyString false) as (fs & l & ->).
    destruct fs as [|f fs]; simpl; eauto.
  - intros pre tail Hpre Htail. unfold parseCsvLine.
    rewrite loop_unquoted_app by assumption.
    simpl. now rewrite loop_open_quote.
  - intros inner rest result current. apply loop_quoted_app.
Qed.

Lemma parseCsvLine_total_tolerant_witness :
  parseCsvLine ("a,b" +:+ String dquote "c,d") = ["a"; "bc,d"].
Proof.
  exact (proj1 (proj2 parseCsvLine_total_tolerant) "a,b" "c,d" eq_refl eq_refl).
Defined.

(** ** CSV ingestion: cells that look like formulas *)

Section Ingestion.

Import InputValidator.

Lemma push_if_true msg errs : push_if true msg errs = errs ++ [msg].
Proof. reflexivity. Qed.

Lemma dangerous_not_blank csv :
  dangerousCells (JS.split newline (JS.trim csv)) = true ->
  JS.is_empty (JS.trim csv) = false /\ JS.is_empty csv = false.
Proof.
  intros H. split.
  - destruct (JS.trim csv); [discriminate H | reflexivity].
  - destruct csv; [discriminate H | reflexivity].
Qed.

(** The validator reports a formula-like cell as an error. *)
Lemma validateCsvData_dangerous csv :
  dangerousCells (JS.split newline (JS.trim csv)) = true ->
  isValid (validateCsvData csv) = false /\
  In "CSV contains potentially dangerous formulas" (errors (validateCsvData csv)).
Proof.
  intros H. destruct (dangerous_not_blank csv H) as [Ht Hc].
  unfold validateCsvData. rewrite Hc, Ht, H, push_if_true. simpl.
  split.
  - rewrite length_app. simpl. apply Nat.eqb_neq. lia.
  - apply in_or_app. right. now left.
Qed.

End Ingestion.

(** C2 (as the code has it). A CSV input with a cell that, trimmed and
    without its enclosing quotes, starts with [=], [+], [@] or [-] is
    rejected as a whole: the validator reports the error
    [CSV contains potentially dangerous formulas], [parseCsvData] throws
    [CSV validation failed: ...] and [execute] returns that failure without
    parsing a row and without sending a request. *)
Theorem dangerous_cell_rejects_csv (csv : string) (fuel : nat) (w : World)
    (parameters : FormBulkSubmitParameters) :
  InputValidator.dangerousCells
    (JS.split InputValidator.newline (JS.trim csv)) = true ->
  default op_submit (operation parameters) = op_submit ->
  csvData parameters = Some csv ->
  let msg := "CSV validation failed: "
             +:+ JS.join ", " (InputValidator.errors (InputValidator.validateCsvData csv)) in
  In "CSV contains potentially dangerous formulas"
     (InputValidator.errors (InputValidator.validateCsvData csv)) /\
  parseCsvData csv =
    ([EvProgress (MsgText "Validating CSV data for security...")], throw_Error msg) /\
  execute fuel w parameters =
    Some (ResFailure msg,
          [EvProgress (MsgText "Processing CSV data...");
           EvProgress (MsgText "Validating CSV data for security...")]).
Proof.
  intros Hd Hop Hcsv msg.
  destruct (validateCsvData_dangerous csv Hd) as [Hv Hin].
  destruct (dangerous_not_blank csv Hd) as [Ht _].
  assert (Hp : parseCsvData csv =
    ([EvProgress (MsgText "Validating CSV data for security...")], throw_Error msg)).
  { unfold parseCsvData. now rewrite Ht, Hv. }
  repeat split; [exact Hin | exact Hp |].
  unfold execute. rewrite Hop, Hcsv. simpl default. now rewrite Hp.
Qed.

Lemma dangerous_cell_rejects_csv_witness :
  In "CSV contains potentially dangerous formulas"
     (InputValidator.errors (InputValidator.validateCsvData Sample.csv_formula)) /\
  parseCsvData Sample.csv_formula =
    ([EvProgress (MsgText "Validating CSV data for security...")],
     throw_Error ("CSV validation failed: "
        +:+ JS.join ", " (InputValidator.errors
                            (InputValidator.validateCsvData Sample.csv_formula)))) /\
  execute 10 Sample.world_ok (Sample.submit_params Sample.csv_formula false 5) =
    Some (ResFailure ("CSV validation failed: "
        +:+ JS.join ", " (InputValidator.errors
                            (InputValidator.validateCsvData Sample.csv_formula))),
          [EvProgress (MsgText "Processing CSV data...");
           EvProgress (MsgText "Validating CSV data for security...")]).
Proof.
  apply (dangerous_cell_rejects_csv Sample.csv_formula 10 Sample.world_ok
           (Sample.submit_params Sample.csv_formula false 5));
    reflexivity.
Defined.

(** C2 (as stated) fails: the input with the cell [=SUM(A1:A2)] is not
    accepted with a neutralized cell; the job ends with a validation error
    and no row is parsed or submitted. *)
Lemma formula_cell_csv_is_rejected :
  execute 10 Sample.world_ok (Sample.submit_params Sample.csv_formula false 5) =
    Some (ResFailure "CSV validation failed: CSV contains potentially dangerous formulas",
          [EvProgress (MsgText "Processing CSV data...");
           EvProgress (MsgText "Validating CSV data for security...")]).
Proof. vm_compute. reflexivity. Qed.

(** ** The request of a row *)

Section RowRequest.

Lemma digit_not_dollar c : JS.is_digit c = true -> JS.ascii_eqb c "$"%char = false.
Proof.
  destruct c as [[] [] [] [] [] [] [] []]; vm_compute; congruence.
Qed.

(** A replacement string of digits stands for itself. *)
Lemma get_substitution_digits matched before after r :
  JS.all_chars JS.is_digit r = true ->
  JS.get_substitution matched before after r = r.
Proof.
  induction r as [|c r IH]; intros H; [reflexivity|].
  simpl in H. apply andb_true_iff in H as [Hc Hr].
  simpl. rewrite (digit_not_dollar c Hc). now rewrite IH.
Qed.

Lemma base_url siteId :
  validateSiteId siteId = true ->
  JS.replace_first "{siteId}" siteId ELOQUA_BASE_URL =
  "https://s" +:+ siteId +:+ ".t.eloqua.com/e/f2".
Proof.
  intros H. apply andb_true_iff in H as [_ H].
  transitivity ("https://s"
     +:+ JS.get_substitution "{siteId}" "https://s" ".t.eloqua.com/e/f2" siteId
     +:+ ".t.eloqua.com/e/f2"); [reflexivity|].
  now rewrite get_substitution_digits.
Qed.

Lemma append_entries (csvData : Row) : forall params : list (string * string),
  fold_left (fun ps kv => ps ++ [(fst kv, snd kv)]) csvData params =
  params ++ csvData.
Proof.
  induction csvData as [|[k v] rest IH]; intros params; simpl.
  - now rewrite app_nil_r.
  - rewrite IH, <- app_assoc. reflexivity.
Qed.

Lemma buildEloquaUrl_eq siteId elqFormName csvData rowNumber :
  validateSiteId siteId = true ->
  buildEloquaUrl siteId elqFormName csvData rowNumber =
  "https://s" +:+ siteId +:+ ".t.eloqua.com/e/f2?"
  +:+ URLSearchParams.toString
        (("elqFormName", elqFormName) :: ("elqSiteID", siteId) :: csvData).
Proof.
  intros H. unfold buildEloquaUrl.
  rewrite base_url, append_entries by assumption.
  simpl app. now rewrite !append_assoc.
Qed.

End RowRequest.

(** C6 (as the code has it). For every row, [processRow] sends exactly one
    request: a POST with [Content-Type: application/x-www-form-urlencoded]
    to [https://s{siteId}.t.eloqua.com/e/f2] followed by a query string that
    holds, URL-encoded, [elqFormName], [elqSiteID] and then every key/value
    pair of the row; the body of the request holds the pairs of the row
    only. *)
Theorem processRow_request (w : World) (siteId elqFormName : string)
    (rowData : Row) (rowNumber : nat) (timeout : float) :
  validateSiteId siteId = true ->
  fst (processRow w siteId elqFormName rowData rowNumber timeout) =
  [EvFetch rowNumber
     {| req_url :=
          "https://s" +:+ siteId +:+ ".t.eloqua.com/e/f2?"
          +:+ URLSearchParams.toString
                (("elqFormName", elqFormName) :: ("elqSiteID", siteId) :: rowData);
        req_method := "POST";
        req_headers := [("Content-Type", "application/x-www-form-urlencoded");
                        ("User-Agent", "EloquaAdminToolbox-BulkSubmit/1.0")];
        req_body := rowData |}].
Proof.
  intros H. unfold processRow, fetch_request. simpl.
  now rewrite buildEloquaUrl_eq.
Qed.

Lemma processRow_request_witness :
  fst (processRow Sample.world_ok "100" "X" Sample.row_email 1 10%float) =
  [EvFetch 1
     {| req_url :=
          "https://s" +:+ "100" +:+ ".t.eloqua.com/e/f2?"
          +:+ URLSearchParams.toString
                (("elqFormName", "X") :: ("elqSiteID", "100") :: Sample.row_email);
        req_method := "POST";
        req_headers := [("Content-Type", "application/x-www-form-urlencoded");
                        ("User-Agent", "EloquaAdminToolbox-BulkSubmit/1.0")];
        req_body := Sample.row_email |}].
Proof.
  apply (processRow_request Sample.world_ok "100" "X" Sample.row_email 1 10%float).
  reflexivity.
Defined.

(** C6 (as stated) fails: the body of the request of the row
    [{email: a@b.c}] is [email=a%40b.c]; [elqFormName] and [elqSiteID] are in
    the query string of the URL, not in the body. *)
Lemma row_request_body_lacks_control_parameters :
  let request := fetch_request "100" "X" Sample.row_email 1 in
  fst (processRow Sample.world_ok "100" "X" Sample.row_email 1 10%float)
    = [EvFetch 1 request] /\
  req_url request
    = "https://s100.t.eloqua.com/e/f2?elqFormName=X&elqSiteID=100&email=a%40b.c" /\
  wire_body request = "email=a%40b.c" /\
  Obj.has_key (req_body request) "elqFormName" = false /\
  Obj.has_key (req_body request) "elqSiteID" = false.
Proof. vm_compute. repeat split; reflexivity. Qed.

(** ** The outcome of a row *)

Section RowOutcome.

Variable w : World.
Variables site form : string.
Variable row : Row.
Variable n : nat.
Variable timeout : float.

(** The promise of [processRow] stays pending exactly when the response
    arrives before the abort timer fires and the wait for its body never
    ends. *)
Lemma processRow_pending :
  snd (processRow w site form row n timeout) = Pending <->
  stalls timeout (net w n (fetch_request site form row n)) = true.
Proof.
  unfold processRow, processRow_try, stalls; simpl.
  destruct (await_fetch timeout _) as [[[t status] [t' text | t' e |]] | e]; simpl;
    split; intros H; try reflexivity; discriminate.
Qed.

(** The promise of [processRow] is never rejected. *)
Lemma processRow_not_rejected e :
  snd (processRow w site form row n timeout) = Settles (Rejected e) -> False.
Proof.
  unfold processRow, processRow_try, try_catch; simpl.
  destruct (await_fetch timeout _) as [[[t status] [t' text | t' e' |]] | e']; simpl;
    discriminate.
Qed.

(** Unless the body read stalls, whatever happens in the [try] block the
    promise of [processRow] is fulfilled, with an outcome that carries the
    number and the data of the row. *)
Lemma processRow_fulfilled :
  stalls timeout (net w n (fetch_request site form row n)) = false ->
  exists r,
    snd (processRow w site form row n timeout) = Settles (Fulfilled r) /\
    rowNumber r = n /\ data r = Some row /\
    parametersCount r = length row.
Proof.
  unfold processRow, try_catch, processRow_try, stalls; simpl.
  destruct (await_fetch timeout _) as [[[t status] [t' text | t' e |]] | e]; simpl;
    intros Hs; try discriminate;
    eexists; split; try reflexivity; simpl; auto.
Qed.

Lemma processRow_data r :
  snd (processRow w site form row n timeout) = Settles (Fulfilled r) ->
  rowNumber r = n /\ data r = Some row.
Proof.
  unfold processRow, try_catch, processRow_try; simpl.
  destruct (await_fetch timeout _) as [[[t status] [t' text | t' e |]] | e]; simpl;
    intros E; inversion E; subst; simpl; auto.
Qed.

(** Success is exactly the completion of the request, and the status
    recorded is the one received. *)
Lemma processRow_success r :
  snd (processRow w site form row n timeout) = Settles (Fulfilled r) ->
  match completes timeout (net w n (fetch_request site form row n)) with
  | Some status => success r = true /\ statusCode r = Some status
  | None => success r = false /\ statusCode r = None
  end.
Proof.
  unfold processRow, try_catch, processRow_try, completes; simpl.
  destruct (await_fetch timeout _) as [[[t status] [t' text | t' e |]] | e]; simpl;
    intros E; inversion E; subst; simpl; auto.
Qed.

Lemma completes_no_stall status :
  completes timeout (net w n (fetch_request site form row n)) = Some status ->
  stalls timeout (net w n (fetch_request site form row n)) = false.
Proof.
  unfold completes, stalls.
  destruct (await_fetch timeout _) as [[[t st] [t' text | t' e |]] | e];
    intros H; try reflexivity; discriminate.
Qed.

Lemma await_fetch_timeout :
  timer_fires timeout (net w n (fetch_request site form row n)) = true ->
  await_fetch timeout (net w n (fetch_request site form row n)) = Thrown AbortError.
Proof.
  unfold timer_fires, await_fetch.
  destruct (net w n _) as [l st b | l e |]; intros H; try reflexivity;
    apply negb_true_iff in H; now rewrite H.
Qed.

(** When the abort timer fires, the outcome is the timeout one. *)
Lemma processRow_timeout :
  timer_fires timeout (net w n (fetch_request site form row n)) = true ->
  exists r,
    snd (processRow w site form row n timeout) = Settles (Fulfilled r) /\
    success r = false /\ error r = Some "Request timeout" /\ statusCode r = None.
Proof.
  intros H. apply await_fetch_timeout in H.
  unfold processRow, try_catch, processRow_try; simpl.
  rewrite H. simpl. eexists. split; [reflexivity|]. simpl. auto.
Qed.

End RowOutcome.

Lemma body_ends_no_stall (timeout : float) (b : FetchBehaviour) :
  body_never_ends b = false -> stalls timeout b = false.
Proof.
  unfold body_never_ends, stalls, await_fetch.
  destruct b as [l st [t text | t e |] | l e |]; intros H; try discriminate;
    try reflexivity; destruct (l <? timeout * 1000)%float; reflexivity.
Qed.

(** C3. When the POST of a row completes (the response arrives before the
    abort timer fires and its body is read), [processRow] returns an outcome
    with [success = true] that records the HTTP status received, whatever
    that status is; an outcome has [success = false] only when the request
    did not complete. *)
Theorem completed_post_is_success (w : World) (site form : string) (row : Row)
    (n : nat) (timeout : float) :
  (forall status,
      completes timeout (net w n (fetch_request site form row n)) = Some status ->
      exists r,
        snd (processRow w site form row n timeout) = Settles (Fulfilled r) /\
        success r = true /\ statusCode r = Some status) /\
  (forall r,
      snd (processRow w site form row n timeout) = Settles (Fulfilled r) ->
      success r = false ->
      completes timeout (net w n (fetch_request site form row n)) = None).
Proof.
  split.
  - intros status Hc.
    destruct (processRow_fulfilled w site form row n timeout
                (completes_no_stall w site form row n timeout status Hc))
      as (r & E & _).
    exists r. split; [exact E|].
    pose proof (processRow_success w site form row n timeout r E) as H.
    now rewrite Hc in H.
  - intros r E Hf.
    pose proof (processRow_success w site form row n timeout r E) as H.
    destruct (completes timeout _) as [st|]; [|reflexivity].
    destruct H as [H _]. rewrite H in Hf. discriminate.
Qed.

Lemma completed_post_is_success_witness :
  exists r,
    snd (processRow Sample.world_404 "100" "X" Sample.row_email 1 10%float)
    = Settles (Fulfilled r) /\
    success r = true /\ statusCode r = Some 404%Z.
Proof.
  apply (proj1 (completed_post_is_success Sample.world_404 "100" "X"
                  Sample.row_email 1 10%float)).
  reflexivity.
Defined.

(** C5 (failing inputs).  [processRow] disarms its abort timer as soon as
    the response has arrived, before it awaits the body.  Against a server
    that answers and then never ends the body, the request exceeds a
    timeout of one second and the promise of [processRow] stays pending: no
    outcome is ever returned, and the job that awaits the batch never
    returns either.  Against a server that answers and takes twenty
    seconds to send the body, the request exceeds the timeout of one second
    as well, and the outcome is a success with its status code and no
    error. *)
Theorem timer_cleared_before_body_is_read :
  exceeds_timeout 1%float
    (net Sample.world_stalled 1 (fetch_request "100" "X" Sample.row_email 1)) = true /\
  snd (processRow Sample.world_stalled "100" "X" Sample.row_email 1 1%float) = Pending /\
  (forall fuel,
      execute fuel Sample.world_stalled
        (Sample.submit_params ("email" +:+ Sample.NL +:+ "a@b.c") false 5) = None) /\
  exceeds_timeout 1%float
    (net Sample.world_slow_body 1 (fetch_request "100" "X" Sample.row_email 1)) = true /\
  exists r,
    snd (processRow Sample.world_slow_body "100" "X" Sample.row_email 1 1%float)
    = Settles (Fulfilled r) /\
    success r = true /\ statusCode r = Some 200%Z /\ error r = None.
Proof.
  split; [reflexivity|]. split; [reflexivity|]. split.
  - intros [|fuel]; vm_compute; reflexivity.
  - split; [reflexivity|]. eexists. vm_compute. repeat split; reflexivity.
Qed.

(** ** [Promise.allSettled] *)

Section AllSettled.

Context {A : Type}.
Variable promises : list (Promise A).

Lemma store_length slots k : length (store promises slots k) = length slots.
Proof.
  unfold store. destruct (promises !! k) as [[p|]|];
    [apply length_insert | reflexivity | reflexivity].
Qed.

Lemma fold_store_length order : forall slots,
  length (fold_left (store promises) order slots) = length slots.
Proof.
  induction order as [|k order IH]; intros slots; simpl; [reflexivity|].
  now rewrite IH, store_length.
Qed.

(** A slot whose position occurs in the order holds the result of its
    promise, when that promise settles. *)
Lemma fold_store_lookup order : forall slots j p,
  length slots = length promises ->
  promises !! j = Some (Settles p) ->
  (j ∈ order \/ slots !! j = Some (Some p)) ->
  fold_left (store promises) order slots !! j = Some (Some p).
Proof.
  induction order as [|k order IH]; intros slots j p Hlen Hp Hj; simpl.
  - destruct Hj as [Hj | Hj]; [inversion Hj | exact Hj].
  - apply IH; [now rewrite store_length | exact Hp |].
    destruct (decide (j = k)) as [-> | Hne].
    + right. unfold store. rewrite Hp.
      apply list_lookup_insert_eq. rewrite Hlen. now apply lookup_lt_Some in Hp.
    + destruct Hj as [Hj | Hj].
      * left. apply elem_of_cons in Hj as [? | ?]; [contradiction | assumption].
      * right. unfold store. destruct (promises !! k) as [[q|]|]; [|exact Hj..].
        now rewrite list_lookup_insert_ne.
Qed.

Lemma collect_Some {B : Type} (l : list B) : collect (map Some l) = Some l.
Proof. induction l as [|a l IH]; simpl; [reflexivity | now rewrite IH]. Qed.

(** A slot is filled only with the result of the promise of its
    position. *)
Lemma fold_store_filled order : forall slots j p,
  (slots !! j = Some (Some p) -> promises !! j = Some (Settles p)) ->
  fold_left (store promises) order slots !! j = Some (Some p) ->
  promises !! j = Some (Settles p).
Proof.
  induction order as [|k order IH]; intros slots j p Hslots H; simpl in H.
  - now apply Hslots.
  - apply (IH _ _ _) in H; [exact H|].
    unfold store. destruct (promises !! k) as [[q|]|] eqn:Hk; [|exact Hslots..].
    destruct (decide (j = k)) as [-> | Hne].
    + intros Hq. apply list_lookup_insert_Some in Hq as [(_ & Hq & _) | (Hn & _)];
        [|contradiction].
      injection Hq as <-. exact Hk.
    + rewrite list_lookup_insert_ne by congruence. exact Hslots.
Qed.

End AllSettled.

(** Once every promise has settled, in whatever order, the combined
    promise resolves with the results in the order of the promises. *)
Lemma allSettled_all {A : Type} (order : list nat) (settled : list (Settled A)) :
  (forall j, j < length settled -> j ∈ order) ->
  allSettled order (map Settles settled) = Some settled.
Proof.
  intros Hall. unfold allSettled. rewrite length_map.
  replace (fold_left (store (map Settles settled)) order
             (replicate (length settled) None))
    with (map Some settled); [apply collect_Some|].
  apply list_eq. intros j.
  destruct (settled !! j) as [p|] eqn:Hp.
  - rewrite list_lookup_fmap, Hp. simpl. symmetry.
    apply fold_store_lookup.
    + now rewrite length_replicate, length_map.
    + now rewrite list_lookup_fmap, Hp.
    + left. apply Hall. now apply lookup_lt_Some in Hp.
  - rewrite list_lookup_fmap, Hp. simpl. symmetry.
    apply lookup_ge_None. rewrite fold_store_length, length_replicate.
    now apply lookup_ge_None.
Qed.

(** A pending promise keeps the combined promise pending, whatever the
    order. *)
Lemma allSettled_pending {A : Type} (order : list nat) (promises : list (Promise A))
    (j : nat) :
  promises !! j = Some Pending -> allSettled order promises = None.
Proof.
  intros Hj. unfold allSettled.
  destruct (collect _) as [rs|] eqn:E; [exfalso | reflexivity].
  assert (Hslot : exists p,
             fold_left (store promises) order (replicate (length promises) None) !! j
             = Some (Some p)).
  { apply lookup_lt_Some in Hj.
    rewrite <- (length_replicate (length promises) (@None (Settled A))),
      <- (fold_store_length promises order) in Hj.
    revert j Hj rs E. clear.
    induction (fold_left _ _ _) as [|[a|] slots IH]; intros j Hj rs E.
    - simpl in Hj. lia.
    - destruct j as [|j]; [now exists a|].
      simpl in E. destruct (collect slots) as [rs'|] eqn:E'; [|discriminate].
      apply (IH j) with (rs := rs'); [simpl in Hj; lia | reflexivity].
    - discriminate. }
  destruct Hslot as (p & Hp).
  apply fold_store_filled in Hp; [congruence|].
  intros H. apply lookup_replicate in H as [H _]. discriminate.
Qed.

(** ** Batches *)

Lemma slice_length {A} (l : list A) i n :
  length (slice i (i + n) l) = Nat.min n (length l - i).
Proof.
  unfold slice. rewrite length_take, length_drop.
  replace (i + n - i) with n by lia. reflexivity.
Qed.

Lemma batch_at_length (csvRows : list Row) (mx i : nat) :
  length (batch_at csvRows mx i) = Nat.min mx (length csvRows - i).
Proof. unfold batch_at. now rewrite length_imap, slice_length. Qed.

Lemma batch_at_lookup (csvRows : list Row) (mx i m : nat) :
  batch_at csvRows mx i !! m =
  if decide (m < mx) then (fun row => (row, i + m)) <$> csvRows !! (i + m)
  else None.
Proof.
  unfold batch_at, slice. rewrite list_lookup_imap.
  replace (i + mx - i) with mx by lia.
  destruct (decide (m < mx)) as [Hm | Hm].
  - now rewrite lookup_take_lt, lookup_drop by exact Hm.
  - rewrite lookup_take_ge by lia. reflexivity.
Qed.

Section Batches.

Variable w : World.
Variables site form : string.
Variable options : Options.
Variable csvRows : list Row.

Local Abbreviation len := (length csvRows).
Local Abbreviation max := (maxConcurrentRequests options).

Hypothesis bodies_end : forall n request, body_never_ends (net w n request) = false.

(** The outcomes of the promises that [processBatch] starts. *)
Lemma started_fulfilled (batch : list (Row * nat)) :
  exists outs,
    map snd (map (fun item =>
                    processRow w site form (fst item) (snd item + 1)
                               (requestTimeout options)) batch)
    = map Settles (map Fulfilled outs) /\
    Forall2 (fun item r =>
               snd (processRow w site form (fst item) (snd item + 1)
                               (requestTimeout options)) = Settles (Fulfilled r))
            batch outs.
Proof.
  induction batch as [|item batch (outs & E & F)].
  - exists []. split; [reflexivity | constructor].
  - destruct (processRow_fulfilled w site form (fst item) (snd item + 1)
                (requestTimeout options)
                (body_ends_no_stall _ _ (bodies_end _ _))) as (r & Er & _).
    exists (r :: outs). split.
    + cbn [map]. now rewrite Er, E.
    + now constructor.
Qed.

Lemma started_events (batch : list (Row * nat)) :
  concat (map fst (map (fun item =>
                          processRow w site form (fst item) (snd item + 1)
                                     (requestTimeout options)) batch))
  = map (fetch_event site form) batch.
Proof.
  induction batch as [|item batch IH]; [reflexivity|].
  cbn [map concat]. now rewrite IH.
Qed.

Lemma array_set_end {A} (arr : list (option A)) (v : A) :
  array_set arr (length arr) v = arr ++ [Some v].
Proof.
  unfold array_set.
  destruct (length arr <? length arr)%nat eqn:E.
  - apply Nat.ltb_lt in E. lia.
  - now rewrite Nat.sub_diag.
Qed.

(** Recording the fulfilled outcomes of a batch that starts where the
    result array ends appends them, in batch order. *)
Lemma forEach_fulfilled (batch : list (Row * nat)) (i : nat) :
  forall (outs : list ProcessedRow) (k : nat) (st : OrchState),
    (forall m, m < length outs -> exists row, batch !! (k + m) = Some (row, i + k + m)) ->
    length (results st) = i + k ->
    exists st',
      forEach_results csvRows batch (map Fulfilled outs) k st = Done st' /\
      results st' = results st ++ map Some outs /\
      processedCount st' = processedCount st + length outs /\
      trace st' = trace st ++
        map (fun m => progress_event len (processedCount st + m)) (seq 1 (length outs)).
Proof.
  induction outs as [|r outs IH]; intros k st Hb Hl.
  - exists st. simpl. rewrite !app_nil_r, Nat.add_0_r. auto.
  - destruct (Hb 0) as (row & Hrow); [simpl; lia|].
    rewrite !Nat.add_0_r in Hrow.
    cbn [map forEach_results]. unfold record_result. rewrite Hrow.
    rewrite <- Hl, array_set_end.
    match goal with |- context [forEach_results _ _ _ _ ?s] => set (st1 := s) end.
    destruct (IH (S k) st1) as (st' & E & Hr & Hp & Ht).
    + intros m Hm. destruct (Hb (S m)) as (row' & Hrow'); [simpl; lia|].
      exists row'. replace (S k + m) with (k + S m) by lia.
      replace (i + S k + m) with (i + k + S m) by lia. exact Hrow'.
    + subst st1. simpl. rewrite length_app. simpl. lia.
    + exists st'. split; [exact E|]. subst st1. simpl in Hr, Hp, Ht.
      rewrite Hr, Hp, Ht, <- !app_assoc. cbn [map length seq app].
      repeat split; [lia|].
      f_equal. f_equal.
      * unfold progress_event. fold len.
        now replace (processedCount st + 1) with (S (processedCount st)) by lia.
      * rewrite <- (seq_shift (length outs) 1), map_map.
        apply map_ext. intros m. f_equal. lia.
Qed.

Lemma count_events_app p (a b : list Event) :
  count_events p (a ++ b) = count_events p a + count_events p b.
Proof. unfold count_events. now rewrite List.filter_app, length_app. Qed.

Lemma count_events_map_const {A} p (f : A -> Event) (l : list A) (b : bool) :
  (forall a, p (f a) = b) ->
  count_events p (map f l) = if b then length l else 0.
Proof.
  intros H. unfold count_events.
  induction l as [|a l IH]; simpl; [now destruct b|].
  rewrite H. destruct b; simpl; now rewrite IH.
Qed.

Lemma count_events_single p (e : Event) :
  count_events p [e] = if p e then 1 else 0.
Proof. unfold count_events. simpl. now destruct (p e). Qed.

(** One batch: the requests of all its rows are sent one after the other,
    the outcomes are appended to the results in batch order, and progress
    is reported once per row. *)
Lemma processBatch_spec (order : list nat) (i : nat) (st : OrchState) :
  (forall j, j < length (batch_at csvRows max i) -> j ∈ order) ->
  length (results st) = i ->
  exists st' outs,
    processBatch w site form options csvRows order (batch_at csvRows max i) st
      = Done st' /\
    results st' = results st ++ map Some outs /\
    Forall2 (fun item r =>
               snd (processRow w site form (fst item) (snd item + 1)
                               (requestTimeout options)) = Settles (Fulfilled r))
            (batch_at csvRows max i) outs /\
    processedCount st' = processedCount st + length (batch_at csvRows max i) /\
    trace st' = trace st
      ++ map (fetch_event site form) (batch_at csvRows max i)
      ++ map (fun m => progress_event len (processedCount st + m))
             (seq 1 (length (batch_at csvRows max i))).
Proof.
  intros Hall Hl. unfold processBatch.
  destruct (started_fulfilled (batch_at csvRows max i)) as (outs & E & F).
  pose proof (Forall2_length _ _ _ F) as Hlen.
  rewrite E, started_events, allSettled_all
    by (rewrite length_map, <- Hlen; exact Hall).
  match goal with |- context [forEach_results _ _ _ _ ?s] => set (st1 := s) end.
  destruct (forEach_fulfilled (batch_at csvRows max i) i outs 0 st1)
    as (st' & E' & Hr & Hp & Ht).
  - intros m Hm. rewrite <- Hlen, batch_at_length in Hm.
    rewrite batch_at_lookup. destruct (decide (0 + m < max)) as [_|]; [|lia].
    destruct (csvRows !! (i + (0 + m))) as [row|] eqn:Hrow.
    + exists row. simpl. do 2 f_equal. lia.
    + apply lookup_ge_None in Hrow. fold len in Hrow. lia.
  - subst st1. simpl. lia.
  - exists st', outs. subst st1. simpl in Hr, Hp, Ht.
    rewrite Hlen. repeat split; try assumption.
    now rewrite Ht, <- app_assoc.
Qed.

End Batches.


(** ** Runs of [processBulkSubmissions] *)

Section Runs.

Variable w : World.
Variables site form : string.
Variable options : Options.
Variable csvRows : list Row.

Local Abbreviation len := (length csvRows).
Local Abbreviation max := (maxConcurrentRequests options).
Local Abbreviation delay := (delayBetweenRequests options).

Hypothesis max_positive : 1 <= max.
Hypothesis settle : all_settle w csvRows max.

Lemma pauses_step i :
  i + max < len -> (len - i - 1) / max = S ((len - (i + max) - 1) / max).
Proof.
  intros H.
  replace (len - i - 1) with ((len - (i + max) - 1) + 1 * max) by lia.
  rewrite Nat.div_add by lia. lia.
Qed.

Lemma pauses_last i :
  i < len -> len <= i + max ->
  (len - i - 1) / max = 0 /\ (len - (i + max) - 1) / max = 0.
Proof.
  intros H1 H2. split.
  - apply Nat.div_small. lia.
  - replace (len - (i + max) - 1) with 0 by lia. apply Nat.Div0.div_0_l.
Qed.

(** The loop from row index [i], given enough fuel: it returns, with one
    outcome per row in the order of the rows, one request per remaining
    row and one pause after every batch but the last. *)
Lemma batches_loop_spec : forall fuel i st,
  len - i < fuel ->
  length (results st) = Nat.min i len ->
  (forall j row, j < i -> csvRows !! j = Some row ->
                 outcome_recorded w site form options (results st) j row) ->
  exists st',
    batches_loop w site form options csvRows fuel i st = Done st' /\
    length (results st') = len /\
    (forall j row, csvRows !! j = Some row ->
                   outcome_recorded w site form options (results st') j row) /\
    processedCount st' = processedCount st + (len - i) /\
    count_events is_fetch (trace st') =
      count_events is_fetch (trace st) + (len - i) /\
    count_events is_delay (trace st') =
      count_events is_delay (trace st)
      + (if (0 <? delay)%Z then (len - i - 1) / max else 0).
Proof.
  induction fuel as [|fuel IH]; intros i st Hfuel Hlen Hrec; [lia|].
  cbn [batches_loop]. destruct (i <? len)%nat eqn:Hi.
  - apply Nat.ltb_lt in Hi.
    destruct (processBatch_spec w site form options csvRows (proj2 settle)
                (completion w i) i st)
      as (st1 & outs & E & Hr & F & Hp & Ht).
    { apply (proj1 settle). }
    { lia. }
    rewrite E.
    pose proof (Forall2_length _ _ _ F) as Hlo.
    rewrite batch_at_length in Hlo, Hp, Ht.
    match goal with |- context [batches_loop _ _ _ _ _ _ _ ?s] => set (st2 := s) end.
    assert (Hres2 : results st2 = results st ++ map Some outs).
    { subst st2. destruct (_ && _); simpl; exact Hr. }
    assert (Hpc2 : processedCount st2 = processedCount st1).
    { subst st2. destruct (_ && _); reflexivity. }
    destruct (IH (i + max) st2) as (st' & E' & Hl' & Hrec' & Hp' & Hf' & Hd').
    + lia.
    + rewrite Hres2, length_app, length_map, Hlen, <- Hlo. lia.
    + intros j row Hj Hrow. rewrite Hres2.
      destruct (decide (j < i)) as [Hji | Hji].
      * destruct (Hrec j row Hji Hrow) as (r & Hr1 & Hr2).
        exists r. split; [|exact Hr2].
        rewrite lookup_app_l; [exact Hr1 | now apply lookup_lt_Some in Hr1].
      * assert (Hb : batch_at csvRows max i !! (j - i) = Some (row, j)).
        { rewrite batch_at_lookup. destruct (decide (j - i < max)); [|lia].
          replace (i + (j - i)) with j by lia. now rewrite Hrow. }
        destruct (Forall2_lookup_l _ _ _ _ _ F Hb) as (r & Hout & Hr2).
        exists r. split; [|exact Hr2].
        rewrite lookup_app_r by lia.
        replace (length (results st)) with i by lia.
        now rewrite list_lookup_fmap, Hout.
    + exists st'. split; [exact E'|]. split; [exact Hl'|]. split; [exact Hrec'|].
      assert (Hmin : Nat.min max (len - i) + (len - (i + max)) = len - i) by lia.
      split; [rewrite Hp', Hpc2, Hp; lia|].
      assert (Hcount : forall p,
                 p = is_fetch \/ p = is_delay ->
                 count_events p (trace st1) =
                 count_events p (trace st)
                 + (if p (fetch_event site form ([], 0))
                    then Nat.min max (len - i) else 0)).
      { intros p Hpq. rewrite Ht, !count_events_app.
        rewrite (count_events_map_const p (fetch_event site form) _
                   (p (fetch_event site form ([], 0))))
          by (intros a; destruct Hpq as [-> | ->]; reflexivity).
        rewrite (count_events_map_const p _ _ false)
          by (intros a; destruct Hpq as [-> | ->]; reflexivity).
        rewrite batch_at_length.
        destruct (p (fetch_event site form ([], 0))); lia. }
      pose proof (Hcount is_fetch (or_introl eq_refl)) as Hfetch.
      pose proof (Hcount is_delay (or_intror eq_refl)) as Hdel.
      simpl in Hfetch, Hdel.
      subst st2.
      destruct ((0 <? delay)%Z && (i + max <? len)%nat) eqn:Hpause;
        cbn [trace] in Hf', Hd'; rewrite ?count_events_app in Hf', Hd';
        rewrite ?count_events_single in Hf', Hd'; cbn [is_fetch is_delay] in Hf', Hd'.
      * apply andb_true_iff in Hpause as [Hdelay Hmore].
        apply Nat.ltb_lt in Hmore. rewrite Hdelay in *.
        rewrite (pauses_step i Hmore). lia.
      * split; [lia|]. apply andb_false_iff in Hpause as [Hdelay | Hmore].
        -- rewrite Hdelay in *. lia.
        -- apply Nat.ltb_ge in Hmore.
           destruct (pauses_last i Hi Hmore) as [E1 E2].
           rewrite E1. rewrite E2 in Hd'. destruct (0 <? delay)%Z; lia.
  - apply Nat.ltb_ge in Hi. exists st.
    split; [reflexivity|]. split; [lia|]. split.
    + intros j row Hrow. apply Hrec; [|exact Hrow].
      apply lookup_lt_Some in Hrow. lia.
    + replace (len - i) with 0 by lia. replace (0 - 1) with 0 by lia.
      rewrite Nat.Div0.div_0_l. destruct (0 <? delay)%Z; lia.
Qed.

End Runs.

Lemma processRow_net (w w' : World) site form row n timeout :
  net w' = net w ->
  processRow w' site form row n timeout = processRow w site form row n timeout.
Proof.
  intros H. unfold processRow, processRow_try, processRow_catch.
  now rewrite H.
Qed.

(** Every completion order that is a permutation of the positions of the
    batch lets all its promises settle, when every body read ends. *)
Lemma permutation_all_settle (w : World) (csvRows : list Row) (mx : nat) :
  (forall i, completion w i ≡ₚ seq 0 (length (batch_at csvRows mx i))) ->
  (forall n request, body_never_ends (net w n request) = false) ->
  all_settle w csvRows mx.
Proof.
  intros H Hb. split; [|exact Hb].
  intros i j Hj. rewrite (H i). apply elem_of_seq. lia.
Qed.

Lemma sample_all_settle (rows : list Row) :
  all_settle Sample.world_ok rows 2.
Proof.
  split; [|reflexivity].
  intros i j Hj. rewrite batch_at_length in Hj.
  assert (j = 0 \/ j = 1) as [-> | ->] by lia; simpl; repeat constructor.
Qed.

(** C1. For valid options (at least one request at a time) and whatever the
    order in which the submissions of a batch complete, the run returns
    a result array with exactly one outcome per input row, in input order:
    slot [i] holds the outcome of row [i], with [rowNumber = i + 1] and
    [data] the row itself.  The array is the same for every completion order
    of the same network. *)
Theorem results_in_input_order (w : World) (site form : string)
    (options : Options) (csvRows : list Row) (fuel : nat) (trace0 : list Event) :
  1 <= maxConcurrentRequests options ->
  all_settle w csvRows (maxConcurrentRequests options) ->
  length csvRows < fuel ->
  exists st,
    processBulkSubmissions w site form options csvRows fuel trace0 = Done st /\
    length (results st) = length csvRows /\
    (forall i row, csvRows !! i = Some row ->
       exists r, results st !! i = Some (Some r) /\
                 rowNumber r = i + 1 /\ data r = Some row) /\
    (forall w' fuel' trace0',
       net w' = net w ->
       all_settle w' csvRows (maxConcurrentRequests options) ->
       length csvRows < fuel' ->
       exists st',
         processBulkSubmissions w' site form options csvRows fuel' trace0' = Done st' /\
         results st' = results st).
Proof.
  intros Hmax Hsettle Hfuel.
  destruct (batches_loop_spec w site form options csvRows Hmax Hsettle fuel 0
              {| results := []; processedCount := 0; trace := trace0 |})
    as (st & E & Hl & Hrec & _); [lia | reflexivity | intros; lia |].
  exists st. split; [exact E|]. split; [exact Hl|]. split.
  - intros i row Hrow. destruct (Hrec i row Hrow) as (r & Hr & Hp).
    exists r. split; [exact Hr|].
    destruct (processRow_data w site form row (i + 1) (requestTimeout options) r Hp)
      as (Hn & Hd).
    auto.
  - intros w' fuel' trace0' Hnet Hsettle' Hfuel'.
    destruct (batches_loop_spec w' site form options csvRows Hmax Hsettle' fuel' 0
                {| results := []; processedCount := 0; trace := trace0' |})
      as (st' & E' & Hl' & Hrec' & _); [lia | reflexivity | intros; lia |].
    exists st'. split; [exact E'|].
    apply list_eq. intros j.
    destruct (csvRows !! j) as [row|] eqn:Hrow.
    + destruct (Hrec j row Hrow) as (r & Hr & Hp).
      destruct (Hrec' j row Hrow) as (r' & Hr' & Hp').
      rewrite (processRow_net w w') in Hp' by exact Hnet.
      rewrite Hp in Hp'. injection Hp' as ->. now rewrite Hr, Hr'.
    + apply lookup_ge_None in Hrow.
      rewrite (proj2 (lookup_ge_None (results st) j)) by lia.
      apply lookup_ge_None. lia.
Qed.

Lemma results_in_input_order_witness :
  exists st,
    processBulkSubmissions Sample.world_ok "100" "X" Sample.options_2
      Sample.rows_3 4 [] = Done st /\
    length (results st) = 3 /\
    (forall i row, Sample.rows_3 !! i = Some row ->
       exists r, results st !! i = Some (Some r) /\
                 rowNumber r = i + 1 /\ data r = Some row).
Proof.
  destruct (results_in_input_order Sample.world_ok "100" "X" Sample.options_2
              Sample.rows_3 4 [])
    as (st & E & Hl & Hrows & _).
  - simpl. lia.
  - apply sample_all_settle.
  - simpl. lia.
  - exists st. auto.
Defined.

(** C4 (as the code has it). No delay step is taken inside a batch: a batch
    sends the requests of all its rows one after the other and then reports
    the progress of each row.  [delayBetweenRequests] is used only for the
    pause after a batch when it is positive and rows remain: a run over [n]
    rows sends [n] requests and pauses [(n - 1) / maxConcurrentRequests]
    times. *)
Theorem no_delay_inside_batch (w : World) (site form : string)
    (options : Options) (csvRows : list Row) (fuel : nat) (trace0 : list Event) :
  1 <= maxConcurrentRequests options ->
  all_settle w csvRows (maxConcurrentRequests options) ->
  length csvRows < fuel ->
  (forall i st,
      length (results st) = i ->
      exists st',
        processBatch w site form options csvRows (completion w i)
          (batch_at csvRows (maxConcurrentRequests options) i) st = Done st' /\
        trace st' = trace st
          ++ map (fetch_event site form)
                 (batch_at csvRows (maxConcurrentRequests options) i)
          ++ map (fun m => progress_event (length csvRows) (processedCount st + m))
                 (seq 1 (length (batch_at csvRows (maxConcurrentRequests options) i)))) /\
  exists st,
    processBulkSubmissions w site form options csvRows fuel trace0 = Done st /\
    count_events is_fetch (trace st) =
      count_events is_fetch trace0 + length csvRows /\
    count_events is_delay (trace st) =
      count_events is_delay trace0
      + (if (0 <? delayBetweenRequests options)%Z
         then (length csvRows - 1) / maxConcurrentRequests options else 0).
Proof.
  intros Hmax Hsettle Hfuel. split.
  - intros i st Hl.
    destruct (processBatch_spec w site form options csvRows (proj2 Hsettle)
                (completion w i) i st)
      as (st' & outs & E & _ & _ & _ & Ht); [apply (proj1 Hsettle) | exact Hl |].
    exists st'. split; assumption.
  - destruct (batches_loop_spec w site form options csvRows Hmax Hsettle fuel 0
                {| results := []; processedCount := 0; trace := trace0 |})
      as (st & E & _ & _ & _ & Hf & Hd); [lia | reflexivity | intros; lia |].
    exists st. simpl in Hf, Hd. rewrite !Nat.sub_0_r in *.
    split; [exact E|]. split; assumption.
Qed.

Lemma no_delay_inside_batch_witness :
  exists st,
    processBulkSubmissions Sample.world_ok "100" "X" Sample.options_2
      Sample.rows_3 4 [] = Done st /\
    count_events is_fetch (trace st) = 3 /\
    count_events is_delay (trace st) = 1.
Proof.
  destruct (no_delay_inside_batch Sample.world_ok "100" "X" Sample.options_2
              Sample.rows_3 4 [])
    as (_ & st & E & Hf & Hd).
  - simpl. lia.
  - apply sample_all_settle.
  - simpl. lia.
  - exists st. split; [exact E|]. split; [exact Hf | exact Hd].
Defined.

(** C4 (as stated) fails: in a batch of two rows the request of the second
    row follows the request of the first with no delay step before it, and
    the run takes no delay step at all. *)
Lemma second_row_of_batch_not_delayed :
  exists st,
    processBulkSubmissions Sample.world_ok "100" "X" Sample.options_2
      Sample.rows_2 3 [] = Done st /\
    trace st =
      [fetch_event "100" "X" ([("a", "1"); ("b", "2")], 0);
       fetch_event "100" "X" ([("a", "3"); ("b", "4")], 1);
       progress_event 2 1; progress_event 2 2] /\
    count_events is_delay (trace st) = 0.
Proof. eexists. vm_compute. repeat split; reflexivity. Qed.

(** ** The summary *)

Lemma successes_le (results : list ProcessedRow) :
  length (List.filter (fun r => success r) results) <= length results.
Proof. apply List.filter_length_le. Qed.

(** C7 (as the code has it). For every list of outcomes, [calculateSummary]
    returns [totalRows] the length of the list, [successfulRequests] the
    number of successes, [successRate] the binary64 value of
    [Math.round((successfulRequests / totalRows) * 100 * 10) / 10], with the
    two multiplications done one after the other, and
    [averageProcessingTime] the value of
    [round(sum(processingTime) / totalRows * 10) / 10]; with 7 successes out
    of 10 outcomes the success rate is 70. *)
Theorem summary_rates (results : list ProcessedRow) :
  let summary := calculateSummary results in
  let successes := length (List.filter (fun r => success r) results) in
  totalRows summary = length results /\
  successfulRequests summary = successes /\
  successfulRequests summary + failedRequests summary = totalRows summary /\
  successRate summary =
    (Num.Math_round
       ((Num.of_nat successes / Num.of_nat (length results)) * 100 * 10) / 10)%float /\
  averageProcessingTime summary =
    spec_averageProcessingTime (sum_processingTime results) (length results) /\
  (length results = 10 -> successes = 7 -> successRate summary = 70%float).
Proof.
  cbv zeta. unfold calculateSummary, summary_of. simpl.
  pose proof (successes_le results) as Hle.
  repeat split; try reflexivity.
  - lia.
  - intros -> ->. vm_compute. reflexivity.
Qed.

Lemma summary_rates_witness :
  successRate (calculateSummary (Sample.outcomes 7 3)) = 70%float.
Proof.
  apply (summary_rates (Sample.outcomes 7 3)); reflexivity.
Defined.

(** C7 (as stated) fails: with 23 successes out of 80 outcomes the code
    returns the success rate 28.7, while [round(23 / 80 * 1000) / 10] is
    28.8, in binary64 arithmetic as well as exactly (the exact rate is
    28.75 percent, 288 tenths after rounding). *)
Lemma success_rate_23_of_80 :
  successRate (calculateSummary (Sample.outcomes 23 57)) = (287 / 10)%float /\
  spec_successRate 23 80 = (288 / 10)%float /\
  exact_rate_tenths 23 80 = 288%Z /\
  PrimFloat.eqb (successRate (calculateSummary (Sample.outcomes 23 57)))
                (spec_successRate 23 80) = false.
Proof. vm_compute. repeat split; reflexivity. Qed.

(** ** [execute] *)

(** [parseCsvData] reports progress and touches neither network nor timers. *)
Lemma parseCsvData_no_io (csv : string) (p : Event -> bool) :
  (forall m, p (EvProgress m) = false) ->
  count_events p (fst (parseCsvData csv)) = 0.
Proof.
  intros Hp. unfold parseCsvData.
  repeat match goal with
         | |- context [if ?b then _ else _] => destruct b
         | |- context [match ?o with Some _ => _ | None => _ end] => destruct o
         end;
    unfold count_events; simpl; rewrite ?Hp; reflexivity.
Qed.

Section Execute.

Variable fuel : nat.
Variable w : World.
Variable parameters : FormBulkSubmitParameters.
Variable evs : list Event.
Variable csvRows : list Row.

Hypothesis submit : default op_submit (operation parameters) = op_submit.
Hypothesis parsed :
  parseCsvData (default EmptyString (csvData parameters)) = (evs, Returned csvRows).

(** No surviving row: the job fails before any submission. *)
Lemma execute_no_rows :
  csvRows = [] ->
  execute fuel w parameters =
    Some (ResFailure "No valid data rows found in CSV",
          [EvProgress (MsgText "Processing CSV data...")] ++ evs).
Proof.
  intros ->. unfold execute. now rewrite submit, parsed.
Qed.

Lemma execute_validateOnly :
  1 <= length csvRows ->
  default false (validateOnly parameters) = true ->
  execute fuel w parameters =
    Some (ResValidation (length csvRows) (length csvRows)
            (imap (fun index row =>
                     buildEloquaUrl (str (siteId parameters))
                       (str (elqFormName parameters)) row (index + 1))
                  (take 3 csvRows)),
          [EvProgress (MsgText "Processing CSV data...")] ++ evs
          ++ [EvProgress (MsgFoundRows (length csvRows))]).
Proof.
  intros Hn Hv. unfold execute. rewrite submit, parsed, Hv.
  destruct (length csvRows =? 0)%nat eqn:E; [apply Nat.eqb_eq in E; lia|].
  unfold slice. rewrite Nat.sub_0_r, drop_0, <- app_assoc. reflexivity.
Qed.

(** A submission run over at least one row ends with a summary over as
    many outcomes as there are rows. *)
Lemma execute_submit :
  1 <= length csvRows ->
  default false (validateOnly parameters) = false ->
  1 <= default 5 (maxConcurrentRequests_ parameters) ->
  all_settle w csvRows (default 5 (maxConcurrentRequests_ parameters)) ->
  length csvRows < fuel ->
  exists summary results tr,
    execute fuel w parameters = Some (ResSubmitted summary results, tr) /\
    length results = length csvRows /\
    totalRows summary = length csvRows.
Proof.
  intros Hn Hv Hmax Hsettle Hfuel. unfold execute. rewrite submit, parsed, Hv.
  destruct (length csvRows =? 0)%nat eqn:E; [apply Nat.eqb_eq in E; lia|].
  match goal with
  | |- context [processBulkSubmissions ?w ?s ?f ?o ?rows ?fu ?t] =>
      destruct (batches_loop_spec w s f o rows Hmax Hsettle fu 0
                  {| results := []; processedCount := 0; trace := t |})
        as (st & Eq & Hl & _); [lia | reflexivity | intros; lia |];
      unfold processBulkSubmissions; rewrite Eq
  end.
  do 3 eexists. split; [reflexivity|]. split; [exact Hl|]. simpl. exact Hl.
Qed.

End Execute.

Lemma calculateSummary_nil :
  calculateSummary [] =
  {| totalRows := 0; successfulRequests := 0; failedRequests := 0;
     successRate := nan; totalProcessingTime := 0%float;
     averageProcessingTime := nan; averageResponseTime := nan |}.
Proof. vm_compute. reflexivity. Qed.

(** C8 (as the code has it). [calculateSummary] has no guard of its own: on
    an empty list it returns a summary with zero counts and NaN rates.  The
    guard is in [execute]: when no row survives parsing, the job fails with
    [No valid data rows found in CSV] before any submission or summary; and
    a submission run over the surviving rows summarises as many outcomes as
    there are rows, at least one. *)
Theorem empty_results_guarded_by_execute (fuel : nat) (w : World)
    (parameters : FormBulkSubmitParameters) (evs : list Event) :
  default op_submit (operation parameters) = op_submit ->
  parseCsvData (default EmptyString (csvData parameters)) = (evs, Returned []) ->
  calculateSummary [] =
    {| totalRows := 0; successfulRequests := 0; failedRequests := 0;
       successRate := nan; totalProcessingTime := 0%float;
       averageProcessingTime := nan; averageResponseTime := nan |} /\
  execute fuel w parameters =
    Some (ResFailure "No valid data rows found in CSV",
          [EvProgress (MsgText "Processing CSV data...")] ++ evs) /\
  (forall fuel' w' parameters' evs' csvRows,
      default op_submit (operation parameters') = op_submit ->
      parseCsvData (default EmptyString (csvData parameters')) = (evs', Returned csvRows) ->
      1 <= length csvRows ->
      default false (validateOnly parameters') = false ->
      1 <= default 5 (maxConcurrentRequests_ parameters') ->
      all_settle w' csvRows (default 5 (maxConcurrentRequests_ parameters')) ->
      length csvRows < fuel' ->
      exists summary results tr,
        execute fuel' w' parameters' = Some (ResSubmitted summary results, tr) /\
        length results = length csvRows /\
        totalRows summary = length csvRows).
Proof.
  intros Hop Hparse. split; [exact calculateSummary_nil|]. split.
  - now apply (execute_no_rows fuel w parameters evs []).
  - intros fuel' w' parameters' evs' csvRows. apply execute_submit.
Qed.

Lemma empty_results_guarded_by_execute_witness :
  execute 10 Sample.world_ok (Sample.submit_params Sample.csv_blank_row false 5) =
    Some (ResFailure "No valid data rows found in CSV",
          [EvProgress (MsgText "Processing CSV data...")]
          ++ fst (parseCsvData Sample.csv_blank_row)).
Proof.
  apply (empty_results_guarded_by_execute 10 Sample.world_ok
           (Sample.submit_params Sample.csv_blank_row false 5)
           (fst (parseCsvData Sample.csv_blank_row)));
    reflexivity.
Defined.

(** C8 (as stated) fails: applied to the empty list, [calculateSummary]
    returns a summary (no rows, rates that are not numbers); it does not
    fail. *)
Lemma summary_of_no_results_is_returned :
  totalRows (calculateSummary []) = 0 /\
  PrimFloat.is_nan (successRate (calculateSummary [])) = true /\
  PrimFloat.is_nan (averageProcessingTime (calculateSummary [])) = true /\
  totalProcessingTime (calculateSummary []) = 0%float.
Proof. vm_compute. repeat split; reflexivity. Qed.

(** C9 (as the code has it). With [validateOnly] set and at least one row
    parsed, [execute] sends no request and returns [totalRows] and
    [validRows] equal to the number of rows parsed and, as samples, the URLs
    that [processRow] would request for the first three rows (all of them
    when there are fewer), in input order. *)
Theorem validate_only_samples (fuel : nat) (w : World)
    (parameters : FormBulkSubmitParameters) (evs : list Event)
    (csvRows : list Row) :
  default op_submit (operation parameters) = op_submit ->
  default false (validateOnly parameters) = true ->
  parseCsvData (default EmptyString (csvData parameters)) = (evs, Returned csvRows) ->
  1 <= length csvRows ->
  exists sampleUrls tr,
    execute fuel w parameters =
      Some (ResValidation (length csvRows) (length csvRows) sampleUrls, tr) /\
    sampleUrls =
      imap (fun index row =>
              req_url (fetch_request (str (siteId parameters))
                         (str (elqFormName parameters)) row (index + 1)))
           (take 3 csvRows) /\
    length sampleUrls = Nat.min 3 (length csvRows) /\
    count_events is_fetch tr = 0 /\
    count_events is_delay tr = 0.
Proof.
  intros Hop Hv Hparse Hn.
  do 2 eexists. split.
  - now apply (execute_validateOnly fuel w parameters evs csvRows).
  - split; [reflexivity|]. split.
    + now rewrite length_imap, length_take.
    + pose proof (parseCsvData_no_io (default EmptyString (csvData parameters))) as Hio.
      rewrite Hparse in Hio. simpl in Hio.
      rewrite !count_events_app, !Hio by reflexivity.
      split; reflexivity.
Qed.

Lemma validate_only_samples_witness :
  exists sampleUrls tr,
    execute 10 Sample.world_ok (Sample.submit_params Sample.csv_five true 5) =
      Some (ResValidation 5 5 sampleUrls, tr) /\
    length sampleUrls = 3 /\
    count_events is_fetch tr = 0.
Proof.
  destruct (validate_only_samples 10 Sample.world_ok
              (Sample.submit_params Sample.csv_five true 5)
              (fst (parseCsvData Sample.csv_five))
              [[("a", "1"); ("b", "2")]; [("a", "3"); ("b", "4")];
               [("a", "5"); ("b", "6")]; [("a", "7"); ("b", "8")];
               [("a", "9"); ("b", "10")]])
    as (urls & tr & E & _ & Hl & Hf & _).
  - reflexivity.
  - reflexivity.
  - vm_compute. reflexivity.
  - simpl. lia.
  - exists urls, tr. split; [exact E|]. split; [exact Hl | exact Hf].
Defined.

(** C9 (as stated) fails for an input whose rows are all blank: parsing
    succeeds with no row, and [execute] with [validateOnly] set returns the
    failure [No valid data rows found in CSV] instead of a validation result
    with zero rows. *)
Lemma validate_only_without_rows_fails :
  snd (parseCsvData Sample.csv_blank_row) = Returned [] /\
  execute 10 Sample.world_ok (Sample.submit_params Sample.csv_blank_row true 5) =
    Some (ResFailure "No valid data rows found in CSV",
          [EvProgress (MsgText "Processing CSV data...");
           EvProgress (MsgText "Validating CSV data for security...");
           EvProgress (MsgText "CSV data validated and sanitized successfully");
           EvProgress (MsgText "Parsing CSV headers...");
           EvProgress (MsgFoundColumns 2)]).
Proof. vm_compute. split; reflexivity. Qed.

(** ** Worked examples *)

(** A header and two data lines give two rows, in input order. *)
Example parseCsvData_two_rows :
  snd (parseCsvData ("a,b" +:+ Sample.NL +:+ "1,2" +:+ Sample.NL +:+ "3,4")) =
  Returned [[("a", "1"); ("b", "2")]; [("a", "3"); ("b", "4")]].
Proof. vm_compute. reflexivity. Qed.

(** Script elements and tags are removed, what is left is escaped. *)
Example sanitizeHtml_sample :
  InputValidator.sanitizeHtml "<b>Tom</b> & <script>alert(1)</script>Co < 3" =
  "Tom &amp; Co &lt; 3".
Proof. vm_compute. reflexivity. Qed.

(** The validator computes the neutralized text of a formula cell (the
    quote it puts in front is then escaped with the rest), and reports the
    input as invalid all the same. *)
Example validateCsvData_formula :
  InputValidator.validateCsvData Sample.csv_formula =
  {| InputValidator.isValid := false;
     InputValidator.errors := ["CSV contains potentially dangerous formulas"];
     InputValidator.sanitizedValue :=
       Some ("name,total" +:+ Sample.NL +:+ "Ada,&#x27;=SUM(A1:A2)") |}.
Proof. vm_compute. reflexivity. Qed.

(** Array-index keys are enumerated first, in numeric order. *)
Example Obj_set_order :
  Obj.set (Obj.set (Obj.set [] "b" "1") "10" "2") "2" "3" =
  [("2", "3"); ("10", "2"); ("b", "1")].
Proof. vm_compute. reflexivity. Qed.

(** [Math.round] sends a tie upwards. *)
Example Math_round_ties :
  Num.Math_round 2.5%float = 3%float /\
  Num.Math_round (-2.5)%float = (-2)%float /\
  Num.Math_round (23 / 80 * 100 * 10)%float = 287%float /\
  Num.Math_round (23 / 80 * 1000)%float = 288%float.
Proof. vm_compute. repeat split; reflexivity. Qed.

(** Two rows submitted to a network that answers 200: two outcomes, all
    successful. *)
Example submit_two_rows :
  exists summary results tr,
    execute 5 Sample.world_ok
      (Sample.submit_params ("a,b" +:+ Sample.NL +:+ "1,2" +:+ Sample.NL +:+ "3,4")
         false 5)
    = Some (ResSubmitted summary results, tr) /\
    length results = 2 /\
    totalRows summary = 2 /\
    successRate summary = 100%float.
Proof. do 3 eexists. vm_compute. repeat split; reflexivity. Qed.

(** A response with status 500 is recorded as a success. *)
Example status_500_is_success :
  option_map (fun r => (success r, statusCode r))
    (match snd (processRow
                  {| net := fun _ _ => Responds 40%float 500 (BodyText 41%float "error");
                     completion := fun _ => [] |}
                  "100" "X" Sample.row_email 1 10%float) with
     | Settles (Fulfilled r) => Some r
     | Settles (Rejected _) | Pending => None
     end)
  = Some (true, Some 500%Z).
Proof. vm_compute. reflexivity. Qed.

(** * Further properties *)

(** ** Characters of strings *)

Lemma includes_app a b c :
  JS.includes_char (a +:+ b) c = JS.includes_char a c || JS.includes_char b c.
Proof.
  induction a as [|d a IH]; [reflexivity|].
  rewrite append_cons. simpl. now rewrite IH, orb_assoc.
Qed.

Lemma includes_replace_other c by_ d s :
  JS.includes_char s d = false ->
  JS.includes_char by_ d = false ->
  JS.includes_char (JS.replace_all_char c by_ s) d = false.
Proof.
  intros Hs Hb. induction s as [|e s IH]; [reflexivity|].
  simpl in Hs. apply orb_false_iff in Hs as [He Hs]. simpl.
  destruct (JS.ascii_eqb e c).
  - rewrite includes_app, Hb. now apply IH.
  - simpl. rewrite He. now apply IH.
Qed.

Lemma includes_replace_same c by_ s :
  JS.includes_char by_ c = false ->
  JS.includes_char (JS.replace_all_char c by_ s) c = false.
Proof.
  intros Hb. induction s as [|e s IH]; [reflexivity|].
  simpl. destruct (JS.ascii_eqb e c) eqn:E.
  - now rewrite includes_app, Hb.
  - simpl. now rewrite E.
Qed.

Lemma replace_absent c by_ s :
  JS.includes_char s c = false -> JS.replace_all_char c by_ s = s.
Proof.
  induction s as [|e s IH]; [reflexivity|].
  simpl. intros H. apply orb_false_iff in H as [He Hs].
  now rewrite He, IH.
Qed.

(** Removing matches only removes code units. *)
Lemma includes_remove_matches re d : forall s skip,
  JS.includes_char s d = false ->
  JS.includes_char (InputValidator.remove_matches re skip s) d = false.
Proof.
  induction s as [|e s IH]; intros skip H; [reflexivity|].
  simpl in H. apply orb_false_iff in H as [He Hs]. simpl.
  destruct skip as [|k]; [|now apply IH].
  destruct (re (String e s)) as [[|k]|]; simpl; rewrite ?He; now apply IH.
Qed.

Lemma remove_matches_no_lt re : forall s,
  (forall t, re t <> None -> exists r, t = String "<"%char r) ->
  JS.includes_char s "<"%char = false ->
  InputValidator.remove_matches re 0 s = s.
Proof.
  intros s Hre. induction s as [|e s IH]; intros H; [reflexivity|].
  simpl in H. apply orb_false_iff in H as [He Hs]. simpl.
  destruct (re (String e s)) as [n|] eqn:E.
  - destruct (Hre (String e s)) as (r & Er); [now rewrite E|].
    injection Er as -> _. discriminate He.
  - now rewrite IH.
Qed.

Lemma SCRIPT_REGEX_lt t :
  InputValidator.SCRIPT_REGEX t <> None -> exists r, t = String "<"%char r.
Proof.
  unfold InputValidator.SCRIPT_REGEX. destruct t as [|c r]; [now intros []|].
  simpl. destruct (JS.ascii_eqb (InputValidator.to_lower c) "<"%char) eqn:E;
    [|now intros []].
  intros _. exists r. f_equal.
  revert E. destruct c as [[] [] [] [] [] [] [] []]; lazy; congruence.
Qed.

Lemma HTML_TAGS_REGEX_lt t :
  InputValidator.HTML_TAGS_REGEX t <> None -> exists r, t = String "<"%char r.
Proof.
  unfold InputValidator.HTML_TAGS_REGEX. destruct t as [|c r]; [now intros []|].
  destruct (JS.ascii_eqb c InputValidator.lt) eqn:E; [|now intros []].
  intros _. exists r. f_equal. now apply Ascii.eqb_eq in E.
Qed.

(** ** [sanitizeHtml] *)

Lemma sanitizeHtml_output input :
  markup_free (InputValidator.sanitizeHtml input) = true.
Proof.
  unfold InputValidator.sanitizeHtml.
  destruct (JS.is_empty input); [reflexivity|].
  unfold markup_free.
  repeat (apply andb_true_iff; split); apply negb_true_iff;
    repeat first
      [ apply includes_replace_same; reflexivity
      | apply includes_replace_other; [|reflexivity] ].
Qed.

Lemma sanitizeHtml_fixes_plain_text input :
  plain_text input = true -> InputValidator.sanitizeHtml input = input.
Proof.
  unfold plain_text, markup_free. intros H.
  repeat (apply andb_true_iff in H as [H ?]).
  repeat match goal with
         | H : negb _ = true |- _ => apply negb_true_iff in H
         end.
  unfold InputValidator.sanitizeHtml.
  destruct input as [|c r]; [reflexivity|]. cbn [JS.is_empty].
  rewrite (remove_matches_no_lt _ _ SCRIPT_REGEX_lt) by assumption.
  rewrite (remove_matches_no_lt _ _ HTML_TAGS_REGEX_lt) by assumption.
  rewrite (replace_absent "&"%char) by assumption.
  rewrite (replace_absent "<"%char) by assumption.
  rewrite (replace_absent ">"%char) by assumption.
  rewrite (replace_absent dquote) by assumption.
  rewrite (replace_absent "'"%char) by assumption.
  now rewrite (replace_absent "/"%char) by assumption.
Qed.

(** X1. The result of [sanitizeHtml] holds none of the characters [<],
    [>], double quote, ['] and [/], whatever the input. *)
Theorem sanitizeHtml_markup_free (input : string) :
  markup_free (InputValidator.sanitizeHtml input) = true.
Proof. apply sanitizeHtml_output. Qed.

(** X2. [sanitizeHtml] leaves unchanged every text without [&], [<], [>],
    double quote, ['] and [/]. *)
Theorem sanitizeHtml_plain_text (input : string) :
  plain_text input = true -> InputValidator.sanitizeHtml input = input.
Proof. apply sanitizeHtml_fixes_plain_text. Qed.

Lemma sanitizeHtml_plain_text_witness :
  InputValidator.sanitizeHtml "Ada Lovelace, 1815" = "Ada Lovelace, 1815".
Proof. apply sanitizeHtml_plain_text. reflexivity. Defined.

(** ** [parseCsvLine] and quoting *)

Lemma split_nonempty sep s : JS.split sep s <> [].
Proof.
  destruct s as [|c r]; simpl; [discriminate|].
  destruct (JS.ascii_eqb c sep); [discriminate|].
  destruct (JS.split sep r); discriminate.
Qed.

Lemma loop_split line : forall result current,
  quote_free line = true ->
  parseCsvLine_loop line result current false =
  result ++ match JS.split comma line with
            | h :: t => (current +:+ h) :: t
            | [] => [current]
            end.
Proof.
  induction line as [|c r IH]; intros result current Hq.
  - simpl. now rewrite append_empty_r.
  - apply quote_free_cons in Hq as [Hc Hq].
    simpl. rewrite Hc.
    pose proof (split_nonempty comma r) as Hne.
    destruct (JS.ascii_eqb c comma); simpl; rewrite IH by assumption;
      destruct (JS.split comma r) as [|h t]; try contradiction.
    + now rewrite append_nil_l, append_empty_r, <- app_assoc.
    + now rewrite append_snoc.
Qed.

Lemma parseCsvLine_split line :
  quote_free line = true -> parseCsvLine line = JS.split comma line.
Proof.
  intros Hq. unfold parseCsvLine. rewrite loop_split by assumption.
  pose proof (split_nonempty comma line).
  destruct (JS.split comma line); [contradiction | reflexivity].
Qed.

(** X3. On a line without double quotes [parseCsvLine] is [line.split(',')]:
    the fields are the pieces between the commas, one more than there are
    commas. *)
Theorem parseCsvLine_without_quotes (line : string) :
  quote_free line = true ->
  parseCsvLine line = JS.split comma line /\
  length (parseCsvLine line) = S (count_char comma line).
Proof.
  intros Hq. pose proof (parseCsvLine_split line Hq) as E.
  split; [exact E|]. rewrite E. clear.
  induction line as [|c r IH]; [reflexivity|].
  simpl. pose proof (split_nonempty comma r).
  destruct (JS.ascii_eqb c comma); simpl.
  - now rewrite IH.
  - destruct (JS.split comma r); [contradiction|]. simpl in *. exact IH.
Qed.

Lemma parseCsvLine_without_quotes_witness :
  parseCsvLine "a,,b c," = JS.split comma "a,,b c," /\
  length (parseCsvLine "a,,b c,") = S (count_char comma "a,,b c,").
Proof. apply parseCsvLine_without_quotes. reflexivity. Defined.

(** Inside an open quote, a field with its quotes doubled, then the closing
    quote, is read back as the field. *)
Lemma loop_quoted_field field : forall rest result current,
  JS.startsWith rest (String dquote EmptyString) = false ->
  parseCsvLine_loop
    (JS.replace_all_char dquote (String dquote (String dquote EmptyString)) field
     +:+ String dquote rest) result current true =
  parseCsvLine_loop rest result (current +:+ field) false.
Proof.
  induction field as [|c f IH]; intros rest result current Hrest.
  - rewrite append_empty_r. simpl.
    destruct rest as [|c2 rest']; [reflexivity|].
    destruct (JS.ascii_eqb c2 dquote) eqn:E; [|reflexivity].
    exfalso. cbn [JS.startsWith] in Hrest. rewrite E in Hrest.
    destruct rest'; discriminate Hrest.
  - simpl. destruct (JS.ascii_eqb c dquote) eqn:Hc.
    + apply Ascii.eqb_eq in Hc. subst c.
      rewrite !append_cons, append_nil_l. simpl.
      rewrite IH by assumption. now rewrite append_snoc.
    + rewrite append_cons. simpl. rewrite Hc, andb_false_r.
      rewrite IH by assumption. now rewrite append_snoc.
Qed.

Lemma loop_quoted_fields fields : forall result,
  fields <> [] ->
  parseCsvLine_loop (JS.join "," (map csv_quote fields)) result EmptyString false
  = result ++ fields.
Proof.
  induction fields as [|f fs IH]; intros result Hne; [contradiction|].
  destruct fs as [|g fs].
  - simpl. unfold csv_quote. simpl.
    rewrite loop_quoted_field by reflexivity. reflexivity.
  - change (JS.join "," (map csv_quote (f :: g :: fs)))
      with (csv_quote f +:+ "," +:+ JS.join "," (map csv_quote (g :: fs))).
    unfold csv_quote at 1. rewrite append_cons. simpl.
    rewrite append_assoc, append_cons, append_nil_l.
    rewrite loop_quoted_field by reflexivity.
    simpl. rewrite IH by discriminate.
    now rewrite <- app_assoc.
Qed.

(** X4. Quoting and parsing are inverse: a record written as its fields,
    each between double quotes with its own quotes doubled, joined by
    commas, is parsed back by [parseCsvLine] into those fields, whatever
    commas and quotes they hold. *)
Theorem parseCsvLine_csv_quote (fields : list string) :
  fields <> [] ->
  parseCsvLine (JS.join "," (map csv_quote fields)) = fields.
Proof.
  intros Hne. unfold parseCsvLine. now rewrite loop_quoted_fields.
Qed.

Lemma parseCsvLine_csv_quote_witness :
  parseCsvLine (JS.join "," (map csv_quote ["Smith, Jr."; String dquote "x"; ""]))
  = ["Smith, Jr."; String dquote "x"; ""].
Proof. apply parseCsvLine_csv_quote. discriminate. Defined.

(** ** The sanitized CSV text *)

Lemma includes_split sep d s :
  JS.includes_char s d = false ->
  Forall (fun p => JS.includes_char p d = false) (JS.split sep s).
Proof.
  induction s as [|c r IH]; intros H; simpl.
  - repeat constructor.
  - simpl in H. apply orb_false_iff in H as [Hc Hr]. specialize (IH Hr).
    destruct (JS.ascii_eqb c sep).
    + constructor; [reflexivity | exact IH].
    + destruct (JS.split sep r) as [|h t]; [repeat constructor; simpl; now rewrite Hc|].
      inversion IH; subst. constructor; [simpl; now rewrite Hc | assumption].
Qed.

Lemma split_no_sep sep s :
  Forall (fun p => JS.includes_char p sep = false) (JS.split sep s).
Proof.
  induction s as [|c r IH]; simpl.
  - repeat constructor.
  - destruct (JS.ascii_eqb c sep) eqn:E.
    + constructor; [reflexivity | exact IH].
    + destruct (JS.split sep r) as [|h t]; [repeat constructor; simpl; now rewrite E|].
      inversion IH; subst. constructor; [simpl; now rewrite E | assumption].
Qed.

Lemma includes_trimStart s d :
  JS.includes_char s d = false -> JS.includes_char (JS.trimStart s) d = false.
Proof.
  induction s as [|c r IH]; intros H; [reflexivity|].
  simpl. destruct (JS.is_ws c); [|exact H].
  simpl in H. apply orb_false_iff in H as [_ H]. now apply IH.
Qed.

Lemma includes_trimEnd s d :
  JS.includes_char s d = false -> JS.includes_char (JS.trimEnd s) d = false.
Proof.
  induction s as [|c r IH]; intros H; [reflexivity|].
  simpl in H. apply orb_false_iff in H as [Hc H]. simpl.
  destruct (JS.is_ws c && JS.is_empty (JS.trimEnd r)); [reflexivity|].
  simpl. rewrite Hc. now apply IH.
Qed.

Lemma includes_trim s d :
  JS.includes_char s d = false -> JS.includes_char (JS.trim s) d = false.
Proof. intros H. now apply includes_trimEnd, includes_trimStart. Qed.

Lemma includes_drop_last s d :
  JS.includes_char s d = false -> JS.includes_char (JS.drop_last s) d = false.
Proof.
  induction s as [|c r IH]; intros H; [reflexivity|].
  simpl in H. apply orb_false_iff in H as [Hc H].
  destruct r as [|c2 r2]; [reflexivity|].
  change (JS.drop_last (String c (String c2 r2)))
    with (String c (JS.drop_last (String c2 r2))).
  simpl JS.includes_char at 1. rewrite Hc. now apply IH.
Qed.

Lemma includes_slice_1_m1 s d :
  JS.includes_char s d = false -> JS.includes_char (JS.slice_1_m1 s) d = false.
Proof.
  destruct s as [|c r]; intros H; [reflexivity|].
  simpl in H. apply orb_false_iff in H as [_ H]. now apply includes_drop_last.
Qed.

(** [sanitizeHtml] adds no code unit that its entities do not hold. *)
Lemma includes_sanitizeHtml s d :
  JS.includes_char "&amp;&lt;&gt;&quot;&#x27;&#x2F;" d = false ->
  JS.includes_char s d = false ->
  JS.includes_char (InputValidator.sanitizeHtml s) d = false.
Proof.
  intros Hd Hs. unfold InputValidator.sanitizeHtml.
  destruct (JS.is_empty s); [reflexivity|].
  change "&amp;&lt;&gt;&quot;&#x27;&#x2F;"
    with ("&amp;" +:+ "&lt;" +:+ "&gt;" +:+ "&quot;" +:+ "&#x27;" +:+ "&#x2F;") in Hd.
  rewrite !includes_app in Hd.
  do 5 (apply orb_false_iff in Hd as [? Hd]).
  do 6 (apply includes_replace_other; [|assumption]).
  now do 2 apply includes_remove_matches.
Qed.

Lemma includes_join sep d parts :
  JS.includes_char sep d = false ->
  Forall (fun p => JS.includes_char p d = false) parts ->
  JS.includes_char (JS.join sep parts) d = false.
Proof.
  intros Hsep H. induction H as [|p parts Hp H IH]; [reflexivity|].
  destruct parts as [|q parts]; [exact Hp|].
  change (JS.join sep (p :: q :: parts)) with (p +:+ sep +:+ JS.join sep (q :: parts)).
  now rewrite !includes_app, Hp, Hsep, IH.
Qed.

Lemma markup_free_quote_free s : markup_free s = true -> quote_free s = true.
Proof.
  unfold markup_free, quote_free. intros H.
  repeat (apply andb_true_iff in H as [H ?]). assumption.
Qed.

(** A cell cut out of a line at the commas is never re-wrapped in quotes,
    and comes out of the sanitizer without a double quote. *)
Lemma sanitize_cell_quote_free cell :
  JS.includes_char cell comma = false ->
  JS.includes_char cell InputValidator.newline = false ->
  quote_free (InputValidator.sanitize_cell cell) = true /\
  JS.includes_char (InputValidator.sanitize_cell cell) comma = false /\
  JS.includes_char (InputValidator.sanitize_cell cell) InputValidator.newline = false.
Proof.
  intros Hc Hn. unfold InputValidator.sanitize_cell.
  set (c1 := JS.trim cell).
  set (c2 := if JS.startsWith c1 (String dquote EmptyString) && JS.endsWith_char c1 dquote
             then JS.slice_1_m1 c1 else c1).
  set (c3 := if InputValidator.starts_dangerous c2 then "'" +:+ c2 else c2).
  assert (H3 : forall d, JS.includes_char "'" d = false ->
                         JS.includes_char cell d = false ->
                         JS.includes_char c3 d = false).
  { intros d Hq Hd. subst c3 c2 c1.
    assert (JS.includes_char (JS.trim cell) d = false) by now apply includes_trim.
    destruct (_ && _); destruct (InputValidator.starts_dangerous _);
      rewrite ?includes_app, ?Hq; simpl; auto using includes_slice_1_m1. }
  pose proof (sanitizeHtml_output c3) as Hm.
  assert (Hcomma : JS.includes_char (InputValidator.sanitizeHtml c3) comma = false).
  { apply includes_sanitizeHtml; [reflexivity | now apply H3]. }
  assert (Hnl : JS.includes_char (InputValidator.sanitizeHtml c3) InputValidator.newline = false).
  { apply includes_sanitizeHtml; [reflexivity | now apply H3]. }
  assert (Hq : JS.includes_char (InputValidator.sanitizeHtml c3) dquote = false).
  { apply markup_free_quote_free in Hm. unfold quote_free in Hm.
    now apply negb_true_iff in Hm. }
  rewrite Hcomma, Hq, Hnl. simpl.
  split; [now apply markup_free_quote_free | split; assumption].
Qed.

Lemma sanitize_line_quote_free line :
  JS.includes_char line InputValidator.newline = false ->
  quote_free (InputValidator.sanitize_line line) = true.
Proof.
  intros Hn. unfold quote_free, InputValidator.sanitize_line.
  apply negb_true_iff, includes_join; [reflexivity|].
  apply Forall_map.
  pose proof (split_no_sep comma line) as H1.
  pose proof (includes_split comma InputValidator.newline line Hn) as H2.
  induction H1 as [|p ps Hp H1 IH]; [constructor|].
  inversion H2; subst. constructor; [|now apply IH].
  destruct (sanitize_cell_quote_free p Hp) as (Hq & _); [assumption|].
  unfold quote_free in Hq. now apply negb_true_iff in Hq.
Qed.

(** X5. The text that [validateCsvData] hands back as sanitized holds no
    double quote: quoted fields do not survive sanitization, and
    [parseCsvLine] splits every line of the sanitized text at every comma. *)
Theorem sanitized_csv_has_no_quotes (csvData sanitized : string) :
  InputValidator.sanitizedValue (InputValidator.validateCsvData csvData)
    = Some sanitized ->
  quote_free sanitized = true /\
  Forall (fun line => parseCsvLine (JS.trim line) = JS.split comma (JS.trim line))
         (JS.split InputValidator.newline (JS.trim sanitized)).
Proof.
  intros H.
  assert (Hq : quote_free sanitized = true).
  { unfold InputValidator.validateCsvData in H.
    destruct (JS.is_empty csvData); [discriminate|].
    destruct (JS.is_empty (JS.trim csvData)); [discriminate|].
    simpl in H. injection H as <-.
    unfold quote_free. apply negb_true_iff, includes_join; [reflexivity|].
    apply Forall_map.
    pose proof (split_no_sep InputValidator.newline (JS.trim csvData)) as Hs.
    induction Hs as [|l ls Hl Hs IH]; constructor; [|exact IH].
    pose proof (sanitize_line_quote_free l Hl) as Hql.
    unfold quote_free in Hql. now apply negb_true_iff in Hql. }
  split; [exact Hq|].
  unfold quote_free in Hq. apply negb_true_iff in Hq.
  pose proof (includes_split InputValidator.newline dquote (JS.trim sanitized)
                (includes_trim _ _ Hq)) as Hl.
  induction Hl as [|l ls Hl Hls IH]; constructor; [|exact IH].
  apply parseCsvLine_split.
  unfold quote_free. now apply negb_true_iff, includes_trim.
Qed.

Lemma sanitized_csv_has_no_quotes_witness :
  quote_free ("name,note" +:+ Sample.NL +:+ "Jane,&quot;Smith,Jr.&quot;") = true.
Proof.
  apply (sanitized_csv_has_no_quotes
           ("name,note" +:+ Sample.NL +:+ "Jane," +:+ csv_quote "Smith, Jr.")).
  vm_compute. reflexivity.
Defined.

(** ** Rows built from a line *)

Lemma has_key_In (o : Row) k : Obj.has_key o k = true <-> In k (map fst o).
Proof.
  induction o as [|[k' v'] o IH]; simpl; [split; [discriminate | tauto]|].
  rewrite orb_true_iff, IH, String.eqb_eq. tauto.
Qed.

Lemma update_keys (o : Row) k v : map fst (Obj.update o k v) = map fst o.
Proof.
  induction o as [|[k' v'] o IH]; [reflexivity|].
  simpl. destruct (String.eqb k' k); simpl; [reflexivity | now rewrite IH].
Qed.

Lemma update_values (P : string -> Prop) (o : Row) k v :
  P v -> Forall P (map snd o) -> Forall P (map snd (Obj.update o k v)).
Proof.
  intros Hv. induction o as [|[k' v'] o IH]; intros H; [constructor|].
  simpl in *. inversion H; subst.
  destruct (String.eqb k' k); simpl; constructor; auto.
Qed.

Lemma insert_index_perm (o : Row) i k v :
  Permutation (Obj.insert_index o i k v) ((k, v) :: o).
Proof.
  induction o as [|[k' v'] o IH]; simpl; [reflexivity|].
  destruct (Obj.array_index k') as [j|]; [|reflexivity].
  destruct (j <? i)%N; [|reflexivity].
  rewrite IH. apply perm_swap.
Qed.

(** What the assignment [o[k] = v] keeps: distinct keys, and any property
    of the values that [v] has too; the only key it can add is [k]. *)
Lemma set_invariant (P : string -> Prop) (o : Row) k v :
  List.NoDup (map fst o) -> Forall P (map snd o) -> P v ->
  List.NoDup (map fst (Obj.set o k v)) /\
  Forall P (map snd (Obj.set o k v)) /\
  (forall k', In k' (map fst (Obj.set o k v)) -> k' = k \/ In k' (map fst o)).
Proof.
  intros Hnd Hp Hv. unfold Obj.set.
  destruct (String.eqb k "__proto__"); [auto|].
  destruct (Obj.has_key o k) eqn:Hk.
  - rewrite update_keys. auto using update_values.
  - assert (Hnot : ~ In k (map fst o)).
    { intros Hin. apply has_key_In in Hin. congruence. }
    assert (Hperm : Permutation (match Obj.array_index k with
                                 | Some i => Obj.insert_index o i k v
                                 | None => o ++ [(k, v)]
                                 end) ((k, v) :: o)).
    { destruct (Obj.array_index k); [apply insert_index_perm|].
      symmetry. apply Permutation_cons_append. }
    split; [|split].
    + eapply Permutation_NoDup; [symmetry; apply Permutation_map, Hperm|].
      simpl. now constructor.
    + eapply Permutation_Forall; [symmetry; apply Permutation_map, Hperm|].
      simpl. now constructor.
    + intros k' Hin.
      eapply Permutation_in in Hin; [|apply Permutation_map, Hperm].
      simpl in Hin. destruct Hin; auto.
Qed.

Lemma set_nonempty (o : Row) k v : o <> [] -> Obj.set o k v <> [].
Proof.
  intros Hne. unfold Obj.set.
  destruct (String.eqb k "__proto__"); [exact Hne|].
  destruct (Obj.has_key o k).
  - destruct o as [|[k' v'] o]; [contradiction|]. simpl.
    destruct (String.eqb k' k); discriminate.
  - destruct (Obj.array_index k).
    + destruct o as [|[k' v'] o]; [contradiction|]. simpl.
      destruct (Obj.array_index k'); [destruct (_ <? _)%N|]; discriminate.
    + destruct o; discriminate.
Qed.

Lemma build_row_invariant (headers : list string) : forall j values row,
  List.NoDup (map fst row) ->
  Forall (fun v => markup_free v = true) (map snd row) ->
  List.NoDup (map fst (build_row headers j values row)) /\
  Forall (fun v => markup_free v = true) (map snd (build_row headers j values row)) /\
  (forall k, In k (map fst (build_row headers j values row)) ->
             In k headers \/ In k (map fst row)).
Proof.
  induction headers as [|h hs IH]; intros j values row Hnd Hp; simpl; [auto|].
  destruct (negb (JS.is_empty (JS.trim (nth j values EmptyString)))).
  - destruct (set_invariant (fun v => markup_free v = true) row h
                (InputValidator.sanitizeHtml (JS.trim (nth j values EmptyString)))
                Hnd Hp (sanitizeHtml_output _)) as (H1 & H2 & H3).
    destruct (IH (S j) values _ H1 H2) as (H4 & H5 & H6).
    split; [exact H4|]. split; [exact H5|].
    intros k Hk. destruct (H6 k Hk) as [?|Hin]; [auto|].
    destruct (H3 k Hin); subst; auto.
  - destruct (IH (S j) values row Hnd Hp) as (H4 & H5 & H6).
    split; [exact H4|]. split; [exact H5|].
    intros k Hk. destruct (H6 k Hk); auto.
Qed.

Lemma split_length sep s : length (JS.split sep s) = S (count_char sep s).
Proof.
  induction s as [|c r IH]; [reflexivity|].
  simpl. pose proof (split_nonempty sep r).
  destruct (JS.ascii_eqb c sep); simpl.
  - now rewrite IH.
  - destruct (JS.split sep r); [contradiction|]. simpl in *. exact IH.
Qed.

Lemma count_char_app c a b :
  count_char c (a +:+ b) = count_char c a + count_char c b.
Proof.
  induction a as [|d a IH]; [reflexivity|].
  rewrite append_cons. simpl. rewrite IH. lia.
Qed.

Lemma count_char_absent c s : JS.includes_char s c = false -> count_char c s = 0.
Proof.
  induction s as [|d s IH]; [reflexivity|].
  simpl. intros H. apply orb_false_iff in H as [Hd Hs].
  now rewrite Hd, IH.
Qed.

Lemma count_char_trimStart c s : count_char c (JS.trimStart s) <= count_char c s.
Proof.
  induction s as [|d s IH]; [reflexivity|].
  simpl. destruct (JS.is_ws d); simpl; lia.
Qed.

Lemma count_char_trimEnd c s : count_char c (JS.trimEnd s) <= count_char c s.
Proof.
  induction s as [|d s IH]; [reflexivity|].
  simpl. destruct (JS.is_ws d && JS.is_empty (JS.trimEnd s)); simpl; lia.
Qed.

Lemma count_char_trim c s : count_char c (JS.trim s) <= count_char c s.
Proof.
  unfold JS.trim. etransitivity; [apply count_char_trimEnd | apply count_char_trimStart].
Qed.

Lemma count_char_join c parts :
  Forall (fun p => JS.includes_char p c = false) parts ->
  count_char c (JS.join (String c EmptyString) parts) = length parts - 1.
Proof.
  intros H. induction H as [|p parts Hp H IH]; [reflexivity|].
  destruct parts as [|q parts]; [now apply count_char_absent|].
  change (JS.join (String c EmptyString) (p :: q :: parts))
    with (p +:+ String c EmptyString +:+ JS.join (String c EmptyString) (q :: parts)).
  rewrite !count_char_app, IH, (count_char_absent c p Hp). simpl.
  unfold JS.ascii_eqb. rewrite Ascii.eqb_refl. lia.
Qed.

Lemma sanitize_line_no_newline line :
  JS.includes_char line InputValidator.newline = false ->
  JS.includes_char (InputValidator.sanitize_line line) InputValidator.newline = false.
Proof.
  intros Hn. unfold InputValidator.sanitize_line.
  apply includes_join; [reflexivity|].
  apply Forall_map.
  pose proof (split_no_sep comma line) as H1.
  pose proof (includes_split comma InputValidator.newline line Hn) as H2.
  induction H1 as [|p ps Hp H1 IH]; [constructor|].
  inversion H2; subst. constructor; [|now apply IH].
  now destruct (sanitize_cell_quote_free p Hp) as (_ & _ & ?).
Qed.

(** A well-formed row: at least one property, distinct keys that are all
    headers, values free of markup characters. *)
Lemma parse_rows_invariant (Q : Row -> Prop) (headers : list string) :
  (forall values,
      build_row headers 0 values [] <> [] -> Q (build_row headers 0 values [])) ->
  forall lines rows,
    Forall Q rows ->
    Forall Q (parse_rows headers lines rows) /\
    length (parse_rows headers lines rows) <= length rows + length lines.
Proof.
  intros HQ. induction lines as [|line lines IH]; intros rows Hrows; simpl.
  - split; [exact Hrows | lia].
  - destruct (JS.is_empty (JS.trim line)).
    + destruct (IH rows Hrows). split; [assumption | lia].
    + destruct (0 <? Obj.keys_length _)%nat eqn:E.
      * destruct (IH (rows ++ [build_row headers 0 (parseCsvLine (JS.trim line)) []]))
          as [H1 H2].
        { apply Forall_app. split; [exact Hrows|]. constructor; [|constructor].
          apply HQ. intros Hnil. rewrite Hnil in E. discriminate. }
        split; [exact H1|]. rewrite length_app in H2. simpl in H2. lia.
      * destruct (IH rows Hrows). split; [assumption | lia].
Qed.

(** X6. Every row that [parseCsvData] returns has at least one property,
    distinct keys that are all column headers, and values without [<],
    [>], double quote, ['] or [/]; and there are at most as many rows as
    the trimmed input has lines after the first.  The headers are the
    fields of the first line of the sanitized text. *)
Theorem parsed_rows_wellformed (csvData : string) (evs : list Event)
    (rows : list Row) :
  parseCsvData csvData = (evs, Returned rows) ->
  length rows <= count_char InputValidator.newline (JS.trim csvData) /\
  exists sanitized,
    InputValidator.sanitizedValue (InputValidator.validateCsvData csvData)
      = Some sanitized /\
    Forall (fun row =>
              row <> [] /\
              List.NoDup (map fst row) /\
              Forall (fun v => markup_free v = true) (map snd row) /\
              (forall k, In k (map fst row) ->
                 In k (parseCsvLine
                         (nth 0 (JS.split InputValidator.newline (JS.trim sanitized))
                              EmptyString))))
           rows.
Proof.
  unfold parseCsvData. intros H.
  destruct (JS.is_empty (JS.trim csvData)) eqn:Ht; [discriminate|].
  destruct (negb (InputValidator.isValid _)); [discriminate|].
  destruct (InputValidator.sanitizedValue _) as [sanitized|] eqn:Hs; [|discriminate].
  destruct (length (JS.split _ (JS.trim sanitized)) <? 2)%nat eqn:Hl; [discriminate|].
  destruct (length (parseCsvLine _) =? 0)%nat; [discriminate|].
  injection H as _ <-.
  set (lines := JS.split InputValidator.newline (JS.trim sanitized)) in *.
  set (headers := parseCsvLine (nth 0 lines EmptyString)).
  destruct (parse_rows_invariant
              (fun row => row <> [] /\ List.NoDup (map fst row) /\
                          Forall (fun v => markup_free v = true) (map snd row) /\
                          (forall k, In k (map fst row) -> In k headers))
              headers) with (lines := drop 1 lines) (rows := @nil Row) as [H1 H2].
  - intros values Hne. split; [exact Hne|].
    destruct (build_row_invariant headers 0 values [])
      as (Ha & Hb & Hc); [constructor | constructor |].
    split; [exact Ha|]. split; [exact Hb|].
    intros k Hk. destruct (Hc k Hk) as [?|[]]. assumption.
  - constructor.
  - split; [|exists sanitized; split; [reflexivity | exact H1]].
    etransitivity; [exact H2|]. rewrite length_drop. subst lines.
    rewrite split_length. simpl.
    etransitivity; [|apply Nat.eq_le_incl; reflexivity].
    rewrite Nat.sub_0_r.
    etransitivity; [apply count_char_trim|].
    unfold InputValidator.validateCsvData in Hs.
    destruct (JS.is_empty csvData); [discriminate|].
    rewrite Ht in Hs. simpl in Hs. injection Hs as <-.
    change InputValidator.nl with (String InputValidator.newline EmptyString).
    rewrite count_char_join.
    + rewrite length_map, split_length. lia.
    + apply Forall_map.
      eapply List.Forall_impl; [|apply split_no_sep].
      intros line. apply sanitize_line_no_newline.
Qed.

Lemma parsed_rows_wellformed_witness :
  length (Sample.rows_3) <= count_char InputValidator.newline
                              (JS.trim ("a,b" +:+ Sample.NL +:+ "1,2" +:+ Sample.NL
                                        +:+ "3,4" +:+ Sample.NL +:+ "5,6")).
Proof.
  apply (parsed_rows_wellformed
           ("a,b" +:+ Sample.NL +:+ "1,2" +:+ Sample.NL +:+ "3,4" +:+ Sample.NL +:+ "5,6")
           (fst (parseCsvData ("a,b" +:+ Sample.NL +:+ "1,2" +:+ Sample.NL
                               +:+ "3,4" +:+ Sample.NL +:+ "5,6")))
           Sample.rows_3).
  vm_compute. reflexivity.
Defined.

Lemma set_fresh_ordinary (o : Row) k v :
  ordinary_key k = true -> ~ In k (map fst o) -> Obj.set o k v = o ++ [(k, v)].
Proof.
  unfold ordinary_key, Obj.set. intros H Hnot.
  apply andb_true_iff in H as [Hp Hi]. apply negb_true_iff in Hp. rewrite Hp.
  destruct (Obj.has_key o k) eqn:Hk; [apply has_key_In in Hk; contradiction|].
  destruct (Obj.array_index k); [discriminate | reflexivity].
Qed.

Lemma zipped_row_keys headers : forall j values k,
  In k (map fst (zipped_row headers j values)) -> In k headers.
Proof.
  induction headers as [|h hs IH]; intros j values k; simpl; [tauto|].
  destruct (JS.is_empty _); simpl; intros H.
  - right. eapply IH, H.
  - destruct H as [H | H]; [now left | right; eapply IH, H].
Qed.

Lemma build_row_zip headers : forall j values row,
  Forall (fun h => ordinary_key h = true) headers ->
  List.NoDup headers ->
  (forall h, In h headers -> ~ In h (map fst row)) ->
  build_row headers j values row = row ++ zipped_row headers j values.
Proof.
  induction headers as [|h hs IH]; intros j values row Hord Hnd Hfresh; simpl.
  - now rewrite app_nil_r.
  - inversion Hord; subst. inversion Hnd; subst.
    destruct (JS.is_empty (JS.trim (nth j values EmptyString))); simpl.
    + apply IH; auto. intros h' Hh'. apply Hfresh. now right.
    + rewrite set_fresh_ordinary by (auto; apply Hfresh; now left).
      rewrite IH; auto.
      * now rewrite <- app_assoc.
      * intros h' Hh'. rewrite map_app, in_app_iff. simpl.
        intros [Hin | [-> | []]]; [|contradiction].
        apply (Hfresh h'); [now right | exact Hin].
Qed.

(** X7. With header names that are distinct and are neither numerals nor
    [__proto__], the row of a data line pairs every header with the value
    at the same position, in header order; a blank or missing value leaves
    its header out, values beyond the last header are dropped, and the
    values kept are trimmed and sanitized. *)
Theorem build_row_pairs_by_position (headers values : list string) :
  Forall (fun h => ordinary_key h = true) headers ->
  List.NoDup headers ->
  build_row headers 0 values [] = zipped_row headers 0 values /\
  (forall k, In k (map fst (build_row headers 0 values [])) -> In k headers) /\
  length (build_row headers 0 values []) <= length headers.
Proof.
  intros Hord Hnd.
  assert (E : build_row headers 0 values [] = zipped_row headers 0 values).
  { rewrite build_row_zip; auto. }
  rewrite E. split; [reflexivity|]. split; [apply zipped_row_keys|].
  clear. generalize 0. induction headers as [|h hs IH]; intros j; simpl; [lia|].
  destruct (JS.is_empty _); simpl; specialize (IH (S j)); lia.
Qed.

Lemma build_row_pairs_by_position_witness :
  build_row ["first"; "last"; "email"] 0 ["Ada"; " "; "ada@x.org"; "extra"] [] =
  [("first", "Ada"); ("email", "ada@x.org")].
Proof.
  apply (build_row_pairs_by_position ["first"; "last"; "email"]
           ["Ada"; " "; "ada@x.org"; "extra"]).
  - repeat constructor.
  - repeat constructor; simpl; intuition discriminate.
Defined.

(** ** Clean input *)

Lemma join_split c s : JS.join (String c EmptyString) (JS.split c s) = s.
Proof.
  induction s as [|d r IH]; [reflexivity|].
  simpl. pose proof (split_nonempty c r) as Hne.
  destruct (JS.ascii_eqb d c) eqn:E.
  - apply Ascii.eqb_eq in E. subst d.
    destruct (JS.split c r) as [|h t] eqn:Es; [contradiction|].
    change (JS.join (String c EmptyString) (EmptyString :: h :: t))
      with (EmptyString +:+ String c EmptyString +:+ JS.join (String c EmptyString) (h :: t)).
    now rewrite IH.
  - destruct (JS.split c r) as [|h t] eqn:Es; [contradiction|].
    destruct t as [|h2 t].
    + simpl in *. now rewrite IH.
    + change (JS.join (String c EmptyString) (String d h :: h2 :: t))
        with (String d (h +:+ String c EmptyString +:+ JS.join (String c EmptyString) (h2 :: t))).
      now rewrite <- IH.
Qed.

Lemma clean_cell_facts cell :
  clean_cell cell = true ->
  JS.trim cell = cell /\ plain_text cell = true /\
  InputValidator.starts_dangerous cell = false /\
  JS.includes_char cell dquote = false.
Proof.
  unfold clean_cell. intros H.
  apply andb_true_iff in H as [H Hd]. apply andb_true_iff in H as [Ht Hp].
  apply String.eqb_eq in Ht. apply negb_true_iff in Hd.
  repeat split; try assumption.
  unfold plain_text in Hp. apply andb_true_iff in Hp as [Hm _].
  apply markup_free_quote_free in Hm. now apply negb_true_iff in Hm.
Qed.

Lemma no_quote_ends cell :
  JS.includes_char cell dquote = false ->
  JS.startsWith cell (String dquote EmptyString) = false /\
  JS.endsWith_char cell dquote = false.
Proof.
  intros H. split.
  - destruct cell as [|c r]; [reflexivity|]. simpl in *.
    apply orb_false_iff in H as [-> _]. reflexivity.
  - unfold JS.endsWith_char. induction cell as [|c r IH]; [reflexivity|].
    simpl in H. apply orb_false_iff in H as [Hc Hr].
    destruct r as [|c2 r2]; [simpl; exact Hc|]. now apply IH.
Qed.

Lemma sanitize_cell_clean cell :
  clean_cell cell = true ->
  JS.includes_char cell comma = false ->
  JS.includes_char cell InputValidator.newline = false ->
  InputValidator.sanitize_cell cell = cell /\
  InputValidator.dangerous_cell cell = false.
Proof.
  intros Hc Hcomma Hnl.
  destruct (clean_cell_facts cell Hc) as (Ht & Hp & Hd & Hq).
  destruct (no_quote_ends cell Hq) as [Hs He].
  split.
  - unfold InputValidator.sanitize_cell. cbv zeta.
    rewrite Ht, Hs. cbn [andb]. rewrite Hd.
    rewrite (sanitizeHtml_fixes_plain_text cell Hp), Hcomma, Hq, Hnl. reflexivity.
  - unfold InputValidator.dangerous_cell, InputValidator.strip_trailing_quote,
      InputValidator.strip_leading_quote.
    rewrite Ht. destruct cell as [|c r]; [reflexivity|].
    simpl in Hq. apply orb_false_iff in Hq as [Hcq Hrq].
    rewrite Hcq, He. exact Hd.
Qed.

Lemma sanitize_line_clean line :
  clean_line line = true ->
  JS.includes_char line InputValidator.newline = false ->
  InputValidator.sanitize_line line = line /\
  InputValidator.dangerous_line line = false.
Proof.
  intros Hc Hnl.
  unfold clean_line in Hc. unfold InputValidator.sanitize_line, InputValidator.dangerous_line.
  pose proof (split_no_sep comma line) as H1.
  pose proof (includes_split comma InputValidator.newline line Hnl) as H2.
  assert (map InputValidator.sanitize_cell (JS.split comma line) = JS.split comma line
          /\ existsb InputValidator.dangerous_cell (JS.split comma line) = false)
    as [-> ->]; [|split; [apply (join_split comma) | reflexivity]].
  induction H1 as [|p ps Hp H1 IH]; [split; reflexivity|].
  inversion H2; subst. simpl in Hc. apply andb_true_iff in Hc as [Hcp Hcps].
  destruct (sanitize_cell_clean p Hcp Hp) as [E1 E2]; [assumption|].
  destruct IH as [E3 E4]; [assumption..|].
  simpl. now rewrite E1, E2, E3, E4.
Qed.

(** X8. A CSV text whose cells are all clean (trimmed, without [&], markup
    characters or double quotes, and not starting with [=], [@], [+] or
    [-]) goes through [validateCsvData] unchanged apart from the outer
    trim, with no formula error; it is valid exactly when it has at least
    two lines and at most 10 MB. *)
Theorem clean_csv_unchanged (csvData : string) :
  JS.is_empty (JS.trim csvData) = false ->
  clean_csv (JS.trim csvData) = true ->
  InputValidator.sanitizedValue (InputValidator.validateCsvData csvData)
    = Some (JS.trim csvData) /\
  InputValidator.dangerousCells
    (JS.split InputValidator.newline (JS.trim csvData)) = false /\
  InputValidator.isValid (InputValidator.validateCsvData csvData) =
    negb (10485760 <? Z.of_nat (String.length (JS.trim csvData)))%Z
    && negb (length (JS.split InputValidator.newline (JS.trim csvData)) <? 2)%nat.
Proof.
  intros Hne Hclean.
  assert (Hcsv : JS.is_empty csvData = false).
  { destruct csvData; [discriminate Hne | reflexivity]. }
  unfold clean_csv in Hclean.
  assert (map InputValidator.sanitize_line
              (JS.split InputValidator.newline (JS.trim csvData))
          = JS.split InputValidator.newline (JS.trim csvData)
          /\ InputValidator.dangerousCells
               (JS.split InputValidator.newline (JS.trim csvData)) = false)
    as [Emap Edanger].
  { pose proof (split_no_sep InputValidator.newline (JS.trim csvData)) as H1.
    unfold InputValidator.dangerousCells.
    induction H1 as [|l ls Hl H1 IH]; [split; reflexivity|].
    simpl in Hclean. apply andb_true_iff in Hclean as [Hcl Hcls].
    destruct (sanitize_line_clean l Hcl Hl) as [E1 E2].
    destruct (IH Hcls) as [E3 E4].
    simpl. now rewrite E1, E2, E3, E4. }
  unfold InputValidator.validateCsvData.
  rewrite Hcsv, Hne, Edanger, Emap. cbn [InputValidator.sanitizedValue InputValidator.isValid].
  split; [|split; [reflexivity|]].
  - f_equal. apply join_split.
  - unfold InputValidator.push_if.
    destruct (10485760 <? _)%Z; destruct (length _ <? 2)%nat; reflexivity.
Qed.

Lemma clean_csv_unchanged_witness :
  InputValidator.sanitizedValue
    (InputValidator.validateCsvData (" a,b" +:+ Sample.NL +:+ "1,x y" +:+ Sample.NL))
  = Some (JS.trim (" a,b" +:+ Sample.NL +:+ "1,x y" +:+ Sample.NL)).
Proof. apply clean_csv_unchanged; reflexivity. Defined.

(** ** Failures of [parseCsvData] *)

Lemma parseCsvLine_length line : (length (parseCsvLine line) =? 0)%nat = false.
Proof.
  unfold parseCsvLine.
  destruct (loop_nonempty line [] EmptyString false) as (fs & l & ->).
  rewrite length_app. simpl. apply Nat.eqb_neq. lia.
Qed.

Lemma validateCsvData_valid_sanitized csv :
  InputValidator.isValid (InputValidator.validateCsvData csv) = true ->
  exists sanitized,
    InputValidator.sanitizedValue (InputValidator.validateCsvData csv) = Some sanitized.
Proof.
  unfold InputValidator.validateCsvData.
  destruct (JS.is_empty csv); [discriminate|].
  destruct (JS.is_empty (JS.trim csv)); [discriminate|].
  simpl. eauto.
Qed.

(** X9. [parseCsvData] fails in three ways only, each with an [Error]: a
    blank input gives [CSV data is empty] before any progress message; an
    input the validator rejects gives [CSV validation failed: ] followed by
    the validator's messages; a sanitized text of fewer than two lines
    gives [CSV must have at least a header row and one data row].  The
    check for missing column headers never fires, and no other exception
    escapes. *)
Theorem parseCsvData_failures (csvData : string) :
  (JS.is_empty (JS.trim csvData) = true ->
   parseCsvData csvData = ([], throw_Error "CSV data is empty")) /\
  match snd (parseCsvData csvData) with
  | Returned _ => True
  | Thrown e =>
      e = JsError "Error" "CSV data is empty" \/
      e = JsError "Error"
            ("CSV validation failed: "
             +:+ JS.join ", " (InputValidator.errors
                                 (InputValidator.validateCsvData csvData))) \/
      e = JsError "Error" "CSV must have at least a header row and one data row"
  end.
Proof.
  unfold parseCsvData. split.
  - intros ->. reflexivity.
  - destruct (JS.is_empty (JS.trim csvData)); [simpl; auto|].
    destruct (InputValidator.isValid _) eqn:Hv; [|simpl; auto].
    destruct (validateCsvData_valid_sanitized csvData Hv) as (sanitized & ->).
    simpl. destruct (length _ <? 2)%nat; [simpl; auto|].
    rewrite parseCsvLine_length. exact I.
Qed.

Lemma parseCsvData_failures_witness :
  parseCsvData "   " = ([], throw_Error "CSV data is empty").
Proof. apply parseCsvData_failures. reflexivity. Defined.

(** ** Runs without a batch size *)

Lemma allSettled_nil {A : Type} (order : list nat) :
  allSettled order (@nil (Promise A)) = Some [].
Proof.
  unfold allSettled. simpl.
  induction order as [|k order IH]; [reflexivity | exact IH].
Qed.

(** X10. With [maxConcurrentRequests = 0] and at least one row the batch
    loop never ends: every batch is empty and the row index does not move,
    so no amount of fuel gives a result. *)
Theorem zero_batch_size_never_returns (w : World) (site form : string)
    (options : Options) (csvRows : list Row) (fuel : nat) (trace0 : list Event) :
  maxConcurrentRequests options = 0 ->
  1 <= length csvRows ->
  processBulkSubmissions w site form options csvRows fuel trace0 = NoResult.
Proof.
  intros Hmax Hlen. unfold processBulkSubmissions.
  generalize {| results := []; processedCount := 0; trace := trace0 |}.
  induction fuel as [|fuel IH]; intros st; [reflexivity|].
  cbn [batches_loop].
  destruct (0 <? length csvRows)%nat eqn:E; [|apply Nat.ltb_ge in E; lia].
  rewrite Hmax. unfold batch_at, slice, processBatch. simpl.
  rewrite allSettled_nil. simpl.
  destruct (_ && _); apply IH.
Qed.

Lemma zero_batch_size_never_returns_witness :
  processBulkSubmissions Sample.world_ok "100" "X"
    {| requestTimeout := 10%float; delayBetweenRequests := 100%Z;
       maxConcurrentRequests := 0 |}
    Sample.rows_2 1000 [] = NoResult.
Proof.
  apply zero_batch_size_never_returns; [reflexivity | simpl; lia].
Defined.

(** ** The trace of a run *)

Lemma run_scan_app p a : forall b cur best,
  run_scan p (a ++ b) cur best =
  run_scan p b (fst (run_scan p a cur best)) (snd (run_scan p a cur best)).
Proof.
  induction a as [|e a IH]; intros b cur best; [reflexivity|].
  simpl. destruct (p e); apply IH.
Qed.

Lemma run_scan_all {A} p (f : A -> Event) (l : list A) : forall cur best,
  (forall a, p (f a) = true) ->
  cur <= best ->
  run_scan p (map f l) cur best = (cur + length l, Nat.max best (cur + length l)).
Proof.
  induction l as [|a l IH]; intros cur best Hp Hle; simpl.
  - f_equal; lia.
  - rewrite Hp, IH by (auto; lia). f_equal; lia.
Qed.

Lemma run_scan_none {A} p (f : A -> Event) (l : list A) : forall cur best,
  (forall a, p (f a) = false) ->
  l <> [] ->
  run_scan p (map f l) cur best = (0, best).
Proof.
  intros cur best Hp Hne. destruct l as [|a l]; [contradiction|].
  simpl. rewrite Hp. clear Hne a.
  induction l as [|a l IH]; [reflexivity|]. simpl. now rewrite Hp.
Qed.

Lemma filter_map_all {A} p (f : A -> Event) (l : list A) :
  (forall a, p (f a) = true) -> List.filter p (map f l) = map f l.
Proof.
  intros Hp. induction l as [|a l IH]; [reflexivity|].
  simpl. now rewrite Hp, IH.
Qed.

Lemma filter_map_none {A} p (f : A -> Event) (l : list A) :
  (forall a, p (f a) = false) -> List.filter p (map f l) = [].
Proof.
  intros Hp. induction l as [|a l IH]; [reflexivity|].
  simpl. now rewrite Hp, IH.
Qed.

Lemma items_from_batch (csvRows : list Row) (mx i : nat) :
  items_from csvRows i = batch_at csvRows mx i ++ items_from csvRows (i + mx).
Proof.
  unfold items_from, batch_at, slice.
  replace (i + mx - i) with mx by lia.
  rewrite <- (take_drop mx (drop i csvRows)) at 1.
  rewrite imap_app, drop_drop. f_equal.
  destruct (decide (mx <= length (drop i csvRows))) as [Hle | Hgt].
  - rewrite length_take, Nat.min_l by exact Hle.
    apply imap_ext. intros k row _. f_equal. lia.
  - rewrite (drop_ge csvRows (i + mx)); [reflexivity|].
    rewrite length_drop in Hgt. lia.
Qed.

Lemma map_seq_offset {A} (f : nat -> A) n : forall a b,
  map (fun m => f (a + m)) (seq b n) = map f (seq (a + b) n).
Proof.
  induction n as [|n IH]; intros a b; [reflexivity|].
  simpl. f_equal. rewrite IH. do 2 f_equal. lia.
Qed.

Lemma items_from_end (csvRows : list Row) (i : nat) :
  length csvRows <= i -> items_from csvRows i = [].
Proof. intros H. unfold items_from. now rewrite drop_ge. Qed.

Section Traces.

Variable w : World.
Variables site form : string.
Variable options : Options.
Variable csvRows : list Row.

Local Abbreviation len := (length csvRows).
Local Abbreviation max := (maxConcurrentRequests options).

Hypothesis max_positive : 1 <= max.
Hypothesis settle : all_settle w csvRows max.

(** The loop from row index [i]: what it adds to the trace, seen through
    the requests, through the progress messages, and through the runs of
    consecutive requests. *)
Lemma batches_loop_trace : forall fuel i st bound,
  len - i < fuel ->
  length (results st) = Nat.min i len ->
  fst (run_scan is_fetch (trace st) 0 0) = 0 ->
  snd (run_scan is_fetch (trace st) 0 0) <= bound ->
  max <= bound ->
  exists st',
    batches_loop w site form options csvRows fuel i st = Done st' /\
    List.filter is_fetch (trace st') =
      List.filter is_fetch (trace st) ++ map (fetch_event site form) (items_from csvRows i) /\
    List.filter is_progress (trace st') =
      List.filter is_progress (trace st)
      ++ map (progress_event len) (seq (S (processedCount st)) (len - i)) /\
    snd (run_scan is_fetch (trace st') 0 0) <= bound.
Proof.
  induction fuel as [|fuel IH]; intros i st bound Hfuel Hlen Hcur Hbest Hbound; [lia|].
  cbn [batches_loop]. destruct (i <? len)%nat eqn:Hi.
  - apply Nat.ltb_lt in Hi.
    destruct (processBatch_spec w site form options csvRows (proj2 settle)
                (completion w i) i st)
      as (st1 & outs & E & Hr & F & Hp & Ht); [apply (proj1 settle) | lia |].
    rewrite E.
    pose proof (Forall2_length _ _ _ F) as Hlo.
    pose proof (batch_at_length csvRows max i) as Hlb.
    set (batch := batch_at csvRows max i) in *.
    set (progress := map (fun m => progress_event len (processedCount st + m))
                         (seq 1 (length batch))) in *.
    assert (Hbne : length batch <> 0) by lia.
    assert (Hscan1 : run_scan is_fetch (trace st1) 0 0 =
                     (0, Nat.max (snd (run_scan is_fetch (trace st) 0 0)) (length batch))).
    { rewrite Ht, !run_scan_app, Hcur.
      rewrite (run_scan_all is_fetch (fetch_event site form)) by (intros; first [reflexivity | lia]).
      cbn [fst snd]. subst progress.
      rewrite (run_scan_none is_fetch); [reflexivity | reflexivity |].
      destruct (length batch); [contradiction | discriminate]. }
    match goal with |- context [batches_loop _ _ _ _ _ _ _ ?s] => set (st2 := s) end.
    assert (Ht2 : exists tail, trace st2 = trace st1 ++ tail /\
                               Forall (fun e => is_fetch e = false /\ is_progress e = false) tail).
    { subst st2. destruct (_ && _); simpl.
      - eexists. split; [reflexivity|]. repeat constructor.
      - exists []. split; [now rewrite app_nil_r | constructor]. }
    destruct Ht2 as (tail & Ht2 & Htail).
    assert (Hfil : forall p, (p = is_fetch \/ p = is_progress) -> List.filter p tail = []).
    { intros p Hp'. clear -Htail Hp'. induction Htail as [|e t [He1 He2] _ IH]; [reflexivity|].
      simpl. destruct Hp' as [-> | ->]; rewrite ?He1, ?He2; exact IH. }
    assert (Hscan2 : run_scan is_fetch (trace st2) 0 0 =
                     (0, Nat.max (snd (run_scan is_fetch (trace st) 0 0)) (length batch))).
    { rewrite Ht2, run_scan_app, Hscan1. cbn [fst snd].
      clear -Htail. induction Htail as [|e t [He1 _] _ IH]; [reflexivity|].
      simpl. now rewrite He1. }
    assert (Hres2 : results st2 = results st1 /\ processedCount st2 = processedCount st1).
    { subst st2. destruct (_ && _); split; reflexivity. }
    destruct Hres2 as [Hres2 Hpc2].
    destruct (IH (i + max) st2 bound) as (st' & E' & Hf' & Hp' & Hb').
    + lia.
    + rewrite Hres2, Hr, length_app, length_map, Hlen, <- Hlo. lia.
    + now rewrite Hscan2.
    + rewrite Hscan2. cbn [snd]. lia.
    + exact Hbound.
    + exists st'. split; [exact E'|]. split; [|split; [|exact Hb']].
      * rewrite Hf', Ht2, Ht, !List.filter_app, (Hfil is_fetch) by auto.
        rewrite (filter_map_all is_fetch) by reflexivity.
        subst progress. rewrite (filter_map_none is_fetch) by reflexivity.
        rewrite !app_nil_r, <- app_assoc. f_equal.
        rewrite (items_from_batch csvRows max i), map_app. reflexivity.
      * rewrite Hp', Ht2, Ht, !List.filter_app, (Hfil is_progress) by auto.
        rewrite (filter_map_none is_progress) by reflexivity.
        subst progress. rewrite (filter_map_all is_progress) by reflexivity.
        rewrite !app_nil_r, <- !app_assoc. simpl. f_equal.
        rewrite Hpc2, Hp.
        replace (len - i) with (length batch + (len - (i + max))) by lia.
        rewrite seq_app, map_app. f_equal.
        rewrite (map_seq_offset _ (length batch) (processedCount st) 1).
        do 2 f_equal. lia.
  - apply Nat.ltb_ge in Hi. exists st. split; [reflexivity|].
    rewrite items_from_end by exact Hi.
    replace (len - i) with 0 by lia. simpl. rewrite !app_nil_r. auto.
Qed.

End Traces.

Lemma map_imap {A B C} (f : B -> C) (l : list A) : forall (g : nat -> A -> B),
  map f (imap g l) = imap (fun i x => f (g i x)) l.
Proof.
  induction l as [|x l IH]; intros g; [reflexivity|].
  simpl. f_equal. apply IH.
Qed.

Lemma items_from_0_events (site form : string) (csvRows : list Row) :
  map (fetch_event site form) (items_from csvRows 0) =
  imap (fun i row => EvFetch (i + 1) (fetch_request site form row (i + 1))) csvRows.
Proof. unfold items_from. rewrite drop_0, map_imap. reflexivity. Qed.

(** X11. A run sends exactly one request per row, in row order: the
    requests in its trace are those of rows 1, 2, ... in this order, each
    once; no row is skipped, repeated or retried. *)
Theorem requests_once_per_row_in_order (w : World) (site form : string)
    (options : Options) (csvRows : list Row) (fuel : nat) :
  1 <= maxConcurrentRequests options ->
  all_settle w csvRows (maxConcurrentRequests options) ->
  length csvRows < fuel ->
  exists st,
    processBulkSubmissions w site form options csvRows fuel [] = Done st /\
    List.filter is_fetch (trace st) =
    imap (fun i row => EvFetch (i + 1) (fetch_request site form row (i + 1))) csvRows.
Proof.
  intros Hmax Hsettle Hfuel.
  destruct (batches_loop_trace w site form options csvRows Hmax Hsettle fuel 0
              {| results := []; processedCount := 0; trace := [] |}
              (maxConcurrentRequests options))
    as (st & E & Hf & _); simpl; try lia.
  exists st. split; [exact E|].
  rewrite Hf. simpl. apply items_from_0_events.
Qed.

Lemma requests_once_per_row_in_order_witness :
  exists st,
    processBulkSubmissions Sample.world_ok "100" "X" Sample.options_2
      Sample.rows_3 4 [] = Done st /\
    List.filter is_fetch (trace st) =
    [EvFetch 1 (fetch_request "100" "X" [("a", "1"); ("b", "2")] 1);
     EvFetch 2 (fetch_request "100" "X" [("a", "3"); ("b", "4")] 2);
     EvFetch 3 (fetch_request "100" "X" [("a", "5"); ("b", "6")] 3)].
Proof.
  apply (requests_once_per_row_in_order Sample.world_ok "100" "X" Sample.options_2
           Sample.rows_3 4).
  - simpl. lia.
  - apply sample_all_settle.
  - simpl. lia.
Defined.

(** X12. A run reports progress once per row, counting 1, 2, ... up to the
    number of rows, always against that total; when it returns, its counter
    of processed rows equals the number of rows. *)
Theorem progress_counts_every_row (w : World) (site form : string)
    (options : Options) (csvRows : list Row) (fuel : nat) :
  1 <= maxConcurrentRequests options ->
  all_settle w csvRows (maxConcurrentRequests options) ->
  length csvRows < fuel ->
  exists st,
    processBulkSubmissions w site form options csvRows fuel [] = Done st /\
    List.filter is_progress (trace st) =
      map (progress_event (length csvRows)) (seq 1 (length csvRows)) /\
    processedCount st = length csvRows.
Proof.
  intros Hmax Hsettle Hfuel.
  destruct (batches_loop_trace w site form options csvRows Hmax Hsettle fuel 0
              {| results := []; processedCount := 0; trace := [] |}
              (maxConcurrentRequests options))
    as (st & E & _ & Hp & _); simpl; try lia.
  destruct (batches_loop_spec w site form options csvRows Hmax Hsettle fuel 0
              {| results := []; processedCount := 0; trace := [] |})
    as (st2 & E2 & _ & _ & Hc & _); [lia | reflexivity | intros; lia |].
  rewrite E in E2. injection E2 as <-.
  exists st. split; [exact E|]. split.
  - rewrite Hp. simpl. now rewrite Nat.sub_0_r.
  - simpl in Hc. lia.
Qed.

Lemma progress_counts_every_row_witness :
  exists st,
    processBulkSubmissions Sample.world_ok "100" "X" Sample.options_2
      Sample.rows_3 4 [] = Done st /\
    List.filter is_progress (trace st) =
      [progress_event 3 1; progress_event 3 2; progress_event 3 3] /\
    processedCount st = 3.
Proof.
  apply (progress_counts_every_row Sample.world_ok "100" "X" Sample.options_2
           Sample.rows_3 4).
  - simpl. lia.
  - apply sample_all_settle.
  - simpl. lia.
Defined.

(** X13. A run never sends more than [maxConcurrentRequests] requests in a
    row: after at most that many it waits for all of them and reports their
    progress before it sends the next. *)
Theorem requests_in_a_row_bounded (w : World) (site form : string)
    (options : Options) (csvRows : list Row) (fuel : nat) :
  1 <= maxConcurrentRequests options ->
  all_settle w csvRows (maxConcurrentRequests options) ->
  length csvRows < fuel ->
  exists st,
    processBulkSubmissions w site form options csvRows fuel [] = Done st /\
    longest_run is_fetch (trace st) <= maxConcurrentRequests options.
Proof.
  intros Hmax Hsettle Hfuel.
  destruct (batches_loop_trace w site form options csvRows Hmax Hsettle fuel 0
              {| results := []; processedCount := 0; trace := [] |}
              (maxConcurrentRequests options))
    as (st & E & _ & _ & Hb); simpl; try lia.
  exists st. split; [exact E | exact Hb].
Qed.

Lemma requests_in_a_row_bounded_witness :
  exists st,
    processBulkSubmissions Sample.world_ok "100" "X" Sample.options_2
      Sample.rows_3 4 [] = Done st /\
    longest_run is_fetch (trace st) <= 2.
Proof.
  apply (requests_in_a_row_bounded Sample.world_ok "100" "X" Sample.options_2
           Sample.rows_3 4).
  - simpl. lia.
  - apply sample_all_settle.
  - simpl. lia.
Defined.

(** ** The shape of an outcome *)



(** ** Serialized parameters *)

Lemma all_chars_app p a b :
  JS.all_chars p (a +:+ b) = JS.all_chars p a && JS.all_chars p b.
Proof.
  induction a as [|c a IH]; [reflexivity|].
  rewrite append_cons. simpl. now rewrite IH, andb_assoc.
Qed.

Lemma all_chars_includes p s c :
  JS.all_chars p s = true -> p c = false -> JS.includes_char s c = false.
Proof.
  intros Hs Hc. induction s as [|d s IH]; [reflexivity|].
  simpl in *. apply andb_true_iff in Hs as [Hd Hs]. rewrite (IH Hs), orb_false_r.
  destruct (JS.ascii_eqb d c) eqn:E; [|reflexivity].
  apply Ascii.eqb_eq in E. subst d. congruence.
Qed.

Lemma encode_char_safe c : JS.all_chars url_safe (URLSearchParams.encode_char c) = true.
Proof. destruct c as [[] [] [] [] [] [] [] []]; reflexivity. Qed.

Lemma encode_safe s : JS.all_chars url_safe (URLSearchParams.encode s) = true.
Proof.
  induction s as [|c s IH]; [reflexivity|].
  simpl. now rewrite all_chars_app, encode_char_safe, IH.
Qed.

Lemma encode_pair_counts p :
  count_char "&"%char (URLSearchParams.encode_pair p) = 0 /\
  count_char "="%char (URLSearchParams.encode_pair p) = 1.
Proof.
  assert (H : forall s c, url_safe c = false ->
                          count_char c (URLSearchParams.encode s) = 0).
  { intros s c Hc. apply count_char_absent.
    eapply all_chars_includes; [apply encode_safe | exact Hc]. }
  unfold URLSearchParams.encode_pair. rewrite !count_char_app.
  rewrite !H by reflexivity. split; reflexivity.
Qed.

(** X15. A serialized name or value is made of ASCII letters, digits and
    [* - . _ + %] only, so it can hold neither [&] nor [=]: the string
    [params.toString()] of [n >= 1] parameters has exactly [n - 1]
    separators [&] and [n] signs [=], whatever the names and values. *)
Theorem serialized_parameters_well_delimited (text : string)
    (params : list (string * string)) :
  JS.all_chars url_safe (URLSearchParams.encode text) = true /\
  count_char "&"%char (URLSearchParams.toString params) = length params - 1 /\
  count_char "="%char (URLSearchParams.toString params) = length params.
Proof.
  split.
  - apply encode_safe.
  - unfold URLSearchParams.toString.
    induction params as [|p ps IH]; [split; reflexivity|].
    destruct (encode_pair_counts p) as [Ha He].
    destruct ps as [|q ps]; [simpl; split; assumption|].
    change (JS.join "&" (map URLSearchParams.encode_pair (p :: q :: ps)))
      with (URLSearchParams.encode_pair p +:+ "&"
            +:+ JS.join "&" (map URLSearchParams.encode_pair (q :: ps))).
    destruct IH as [IH1 IH2].
    rewrite !count_char_app, Ha, He, IH1, IH2. simpl. split; lia.
Qed.

Lemma decode_encode_char c rest :
  form_decode (URLSearchParams.encode_char c +:+ rest) = String c (form_decode rest).
Proof. destruct c as [[] [] [] [] [] [] [] []]; reflexivity. Qed.

Lemma decode_encode s : form_decode (URLSearchParams.encode s) = s.
Proof.
  induction s as [|c s IH]; [reflexivity|].
  simpl. now rewrite decode_encode_char, IH.
Qed.

(** On the strings of the embedding, the serializer on all code units is
    [URLSearchParams.encode]. *)
Lemma encode_units_char c rest :
  USVString.encode (N.of_nat (JS.code c) :: rest)
  = URLSearchParams.encode_char c +:+ USVString.encode rest.
Proof. destruct c as [[] [] [] [] [] [] [] []]; reflexivity. Qed.

Lemma encode_units_of s :
  USVString.encode (USVString.units_of s) = URLSearchParams.encode s.
Proof.
  induction s as [|c s IH]; [reflexivity|].
  cbn [USVString.units_of URLSearchParams.encode].
  now rewrite encode_units_char, IH.
Qed.

Lemma units_of_string_of units :
  Forall (fun u => (u <= 255)%N) units ->
  USVString.units_of (USVString.string_of units) = units.
Proof.
  induction 1 as [|u units Hu _ IH]; [reflexivity|].
  cbn [USVString.string_of USVString.units_of]. rewrite IH. f_equal.
  unfold JS.code, nat_of_ascii. rewrite N2Nat.id.
  apply N_ascii_embedding. lia.
Qed.

(** X16. On names and values whose code units are all at most U+00FF,
    serialization loses nothing: two of them with the same serialized form
    are equal.  (It does not hold of all strings: see
    [lone_surrogate_is_replaced].) *)
Theorem encode_injective (a b : list N) :
  Forall (fun u => (u <= 255)%N) a ->
  Forall (fun u => (u <= 255)%N) b ->
  USVString.encode a = USVString.encode b -> a = b.
Proof.
  intros Ha Hb H.
  rewrite <- (units_of_string_of a Ha), <- (units_of_string_of b Hb) in H |- *.
  rewrite !encode_units_of in H. f_equal.
  rewrite <- (decode_encode (USVString.string_of a)),
    <- (decode_encode (USVString.string_of b)).
  now rewrite H.
Qed.

Lemma encode_injective_witness : [97; 32; 233]%N = [97; 32; 233]%N.
Proof.
  apply encode_injective; [repeat constructor; lia .. | reflexivity].
Defined.

(** A surrogate without its partner is serialized as U+FFFD is: the two
    strings have the same serialized form. *)
Example lone_surrogate_is_replaced :
  USVString.encode [55296%N] = "%EF%BF%BD" /\
  USVString.encode [65533%N] = "%EF%BF%BD".
Proof. split; reflexivity. Qed.

(** ** Validators of names, text, endpoints and addresses *)

Import InputValidator Validators.

Lemma trimEnd_idempotent s : JS.trimEnd (JS.trimEnd s) = JS.trimEnd s.
Proof.
  induction s as [|c r IH]; [reflexivity|].
  simpl. destruct (JS.is_ws c && JS.is_empty (JS.trimEnd r)) eqn:E; [reflexivity|].
  simpl. now rewrite IH, E.
Qed.

Lemma trimStart_head s :
  JS.trimStart s = EmptyString
  \/ exists c r, JS.trimStart s = String c r /\ JS.is_ws c = false.
Proof.
  induction s as [|c r IH]; [now left|].
  simpl. destruct (JS.is_ws c) eqn:E; [exact IH|].
  right. now exists c, r.
Qed.

Lemma trimEnd_head c r :
  JS.is_ws c = false -> JS.trimEnd (String c r) = String c (JS.trimEnd r).
Proof. intros H. simpl. now rewrite H. Qed.

Lemma trim_idempotent s : JS.trim (JS.trim s) = JS.trim s.
Proof.
  unfold JS.trim.
  destruct (trimStart_head s) as [-> | (c & r & -> & Hc)]; [reflexivity|].
  rewrite (trimEnd_head _ _ Hc). cbn [JS.trimStart]. rewrite Hc.
  rewrite <- (trimEnd_head _ _ Hc). apply trimEnd_idempotent.
Qed.

Lemma length_zero_empty s : (String.length s =? 0)%nat = JS.is_empty s.
Proof. now destruct s. Qed.

(** A result is valid exactly when no error was pushed. *)
Lemma result_valid errors value :
  isValid (result errors value) = true -> errors = [].
Proof. unfold result. simpl. destruct errors; [reflexivity|discriminate]. Qed.

Lemma push_if_nil b msg errors : push_if b msg errors = [] -> b = false /\ errors = [].
Proof.
  unfold push_if. destruct b; [|now split].
  intros H. now destruct errors.
Qed.

Lemma all_of_class_spec class s :
  all_of_class class s = true ->
  JS.is_empty s = false /\ JS.all_chars class s = true.
Proof.
  unfold all_of_class. intros H. apply andb_true_iff in H as [H1 H2].
  apply negb_true_iff in H1. now split.
Qed.

Lemma filename_char_no_ws c : filename_char c = true -> JS.is_ws c = false.
Proof. destruct c as [[] [] [] [] [] [] [] []]; lazy; congruence. Qed.

(** X17. A file name that [validateFilename] accepts is returned trimmed,
    has between 1 and 255 characters, all of them ASCII letters, digits,
    [.], [_] or [-] (so no path separator, no colon and no white space),
    and the part before its first dot is none of the reserved device
    names in any letter case. *)
Theorem valid_filename_is_safe (filename : string) :
  isValid (validateFilename filename) = true ->
  sanitizedValue (validateFilename filename) = Some (JS.trim filename)
  /\ 1 <= String.length (JS.trim filename) <= 255
  /\ JS.all_chars filename_char (JS.trim filename) = true
  /\ JS.includes_char (JS.trim filename) "/" = false
  /\ JS.includes_char (JS.trim filename) "\" = false
  /\ JS.includes_char (JS.trim filename) ":" = false
  /\ JS.all_chars (fun c => negb (JS.is_ws c)) (JS.trim filename) = true
  /\ Forall (fun reserved =>
               upper_is (nth 0 (JS.split "." (JS.trim filename)) EmptyString) reserved
               = false) reservedNames.
Proof.
  unfold validateFilename.
  destruct (JS.is_empty filename); [discriminate|].
  rewrite length_zero_empty.
  destruct (JS.is_empty (JS.trim filename)) eqn:Hne; [discriminate|].
  cbv zeta. intros H. apply result_valid in H.
  apply push_if_nil in H as [Hres H].
  apply push_if_nil in H as [Hre H].
  apply push_if_nil in H as [Hlen _].
  apply negb_false_iff, all_of_class_spec in Hre as [_ Hall].
  apply Nat.ltb_ge in Hlen.
  split; [reflexivity|]. split.
  { split; [|exact Hlen]. destruct (JS.trim filename); [discriminate|simpl; lia]. }
  split; [exact Hall|].
  repeat (split; [now apply (all_chars_includes _ _ _ Hall)|]).
  split.
  { clear -Hall. induction (JS.trim filename) as [|c r IH]; [reflexivity|].
    simpl in *. apply andb_true_iff in Hall as [Hc Hr].
    now rewrite (filename_char_no_ws _ Hc), IH. }
  unfold uses_reserved_name in Hres. cbv zeta in Hres.
  apply List.Forall_forall. intros reserved Hin.
  destruct (upper_is _ reserved) eqn:E; [|reflexivity].
  enough (existsb (upper_is (nth 0 (JS.split "." (JS.trim filename)) EmptyString))
            reservedNames = true) by congruence.
  apply List.existsb_exists. now exists reserved.
Qed.

Lemma valid_filename_is_safe_witness :
  sanitizedValue (validateFilename "  report-2024.final.csv ")
  = Some "report-2024.final.csv"
  /\ JS.includes_char "report-2024.final.csv" "/" = false.
Proof.
  destruct (valid_filename_is_safe "  report-2024.final.csv " eq_refl)
    as (Hv & _ & _ & Hs & _).
  split; [exact Hv | exact Hs].
Defined.

(** X18. A site name that [validateSiteName] accepts is returned trimmed,
    has between 1 and 50 characters, all of them ASCII letters, digits,
    [.] or [-]: it holds no white space and none of the characters that
    delimit the parts of a URL. *)
Theorem valid_site_name_is_host_like (siteName : string) :
  isValid (validateSiteName siteName) = true ->
  sanitizedValue (validateSiteName siteName) = Some (JS.trim siteName)
  /\ 1 <= String.length (JS.trim siteName) <= 50
  /\ JS.all_chars sitename_char (JS.trim siteName) = true
  /\ Forall (fun c => JS.includes_char (JS.trim siteName) c = false)
       ["/"; ":"; "@"; "?"; "#"; "&"; "="; "%"; "_"; " "]%char.
Proof.
  unfold validateSiteName.
  destruct (JS.is_empty siteName); [discriminate|].
  rewrite length_zero_empty.
  destruct (JS.is_empty (JS.trim siteName)) eqn:Hne; [discriminate|].
  cbv zeta. intros H. apply result_valid in H.
  apply push_if_nil in H as [Hre H].
  apply push_if_nil in H as [Hlen _].
  apply negb_false_iff, all_of_class_spec in Hre as [_ Hall].
  apply Nat.ltb_ge in Hlen.
  split; [reflexivity|]. split.
  { split; [|exact Hlen]. destruct (JS.trim siteName); [discriminate|simpl; lia]. }
  split; [exact Hall|].
  repeat constructor; now apply (all_chars_includes _ _ _ Hall).
Qed.

Lemma valid_site_name_is_host_like_witness :
  sanitizedValue (validateSiteName " Acme-Corp.1 ") = Some "Acme-Corp.1"
  /\ String.length "Acme-Corp.1" <= 50.
Proof.
  destruct (valid_site_name_is_host_like " Acme-Corp.1 " eq_refl)
    as (Hv & [_ Hl] & _).
  split; [exact Hv | exact Hl].
Defined.

(** X19. [validateText] always returns a value, free of markup characters;
    the text is valid exactly when its trimmed form has at most
    [maxLength] characters (the limit applies before the entities are
    written), at most one error is reported, and a trimmed text without
    any character that [sanitizeHtml] acts on is returned as it is. *)
Theorem validateText_result (text : string) (maxLength : nat) :
  exists value,
    sanitizedValue (validateText text maxLength) = Some value
    /\ markup_free value = true
    /\ isValid (validateText text maxLength)
       = (String.length (JS.trim text) <=? maxLength)%nat
    /\ length (errors (validateText text maxLength)) <= 1
    /\ (plain_text (JS.trim text) = true -> value = JS.trim text).
Proof.
  unfold validateText. destruct text as [|c r].
  { exists EmptyString. repeat split; auto. }
  cbn [JS.is_empty]. cbv zeta.
  exists (sanitizeHtml (JS.trim (String c r))).
  split; [reflexivity|]. split; [apply sanitizeHtml_output|].
  unfold result, push_if. cbn [isValid errors].
  destruct (Nat.ltb_spec maxLength (String.length (JS.trim (String c r)))) as [Hlt|Hge].
  - repeat split.
    + symmetry. apply Nat.leb_gt. exact Hlt.
    + simpl. lia.
    + apply sanitizeHtml_fixes_plain_text.
  - repeat split.
    + symmetry. apply Nat.leb_le. exact Hge.
    + simpl. lia.
    + apply sanitizeHtml_fixes_plain_text.
Qed.

Lemma startsWith_slash s p :
  JS.startsWith s "/" = false -> JS.startsWith s (String "/" p) = false.
Proof.
  destruct s as [|c r]; [reflexivity|].
  cbn [JS.startsWith]. destruct (JS.ascii_eqb c "/"); [|reflexivity].
  destruct r; discriminate.
Qed.

Lemma startsWith_app s p q :
  JS.startsWith s (p +:+ q) = true -> JS.startsWith s p = true.
Proof.
  revert s. induction p as [|c p IH]; intros s; [now destruct s|].
  rewrite append_cons. destruct s as [|d s]; [discriminate|].
  cbn [JS.startsWith]. intros H. apply andb_true_iff in H as [-> H]. now apply IH.
Qed.

(** X20. [validateApiEndpoint] accepts an endpoint exactly when its trimmed
    form starts with one of the four allowed API paths and holds no [..];
    the leading-slash check never decides, its error comes only together
    with the allowed-paths error.  An accepted endpoint is returned
    trimmed and starts with [/api/]. *)
Theorem endpoint_valid_iff (endpoint : string) :
  isValid (validateApiEndpoint endpoint)
  = negb (JS.is_empty endpoint)
    && existsb (fun path => JS.startsWith (JS.trim endpoint) path) allowedPaths
    && negb (includes (JS.trim endpoint) "..")
  /\ (In "API endpoint must start with /" (errors (validateApiEndpoint endpoint)) ->
      In "API endpoint is not in allowed paths" (errors (validateApiEndpoint endpoint)))
  /\ (isValid (validateApiEndpoint endpoint) = true ->
      sanitizedValue (validateApiEndpoint endpoint) = Some (JS.trim endpoint)
      /\ JS.startsWith (JS.trim endpoint) "/api/" = true).
Proof.
  unfold validateApiEndpoint.
  destruct (JS.is_empty endpoint).
  { split; [reflexivity|]. split; [|discriminate].
    simpl. intros [H|[]]. discriminate. }
  cbv zeta. cbn [negb andb].
  destruct (JS.startsWith (JS.trim endpoint) "/") eqn:Hslash.
  - cbn [negb push_if].
    destruct (includes (JS.trim endpoint) ".."),
      (existsb (fun path => JS.startsWith (JS.trim endpoint) path) allowedPaths) eqn:Hall;
      cbn [negb push_if app andb result isValid errors sanitizedValue length Nat.eqb];
      (split; [reflexivity|]); (split; [|try discriminate]).
    + simpl. intros [H|[]]. discriminate.
    + simpl. intros [H|[H|[]]]; discriminate || (right; now left).
    + intros [].
    + intros _. split; [reflexivity|].
      apply List.existsb_exists in Hall as (path & Hin & Hp).
      simpl in Hin.
      destruct Hin as [<-|[<-|[<-|[<-|[]]]]];
        match type of Hp with
        | JS.startsWith _ (String _ (String _ (String _ (String _ (String _ ?rest))))) = true =>
            apply (startsWith_app _ "/api/" rest)
        end; exact Hp.
    + simpl. intros [H|[]]. discriminate.
  - assert (Hno : existsb (fun path => JS.startsWith (JS.trim endpoint) path) allowedPaths
                  = false).
    { unfold allowedPaths. cbn [existsb].
      now rewrite !(startsWith_slash _ _ Hslash). }
    rewrite Hno. cbn [negb push_if andb].
    destruct (includes (JS.trim endpoint) "..");
      cbn [push_if app result isValid errors length Nat.eqb];
      (split; [reflexivity|]); (split; [|discriminate]); intros _; simpl; tauto.
Qed.

(** *** Addresses *)

Lemma email_char_spec c :
  email_char c = true -> JS.is_ws c = false /\ JS.ascii_eqb c "@" = false.
Proof.
  unfold email_char. intros H. apply andb_true_iff in H as [H1 H2].
  now apply negb_true_iff in H1, H2.
Qed.

Lemma email_domain_spec : forall s seen,
  email_domain seen s = true ->
  JS.all_chars email_char s = true
  /\ JS.includes_char s "." = true
  /\ (if seen then 2 else 3) <= String.length s.
Proof.
  induction s as [|c r IH]; intros seen H; [discriminate|].
  cbn [email_domain] in H. apply andb_true_iff in H as [Hc H].
  apply orb_true_iff in H as [H|H].
  - apply andb_true_iff in H as [H Htail]. apply andb_true_iff in H as [Hdot Hseen].
    apply all_of_class_spec in Htail as [Hne Hall]. subst seen.
    cbn [JS.all_chars JS.includes_char String.length].
    rewrite Hc, Hall, Hdot. repeat split.
    destruct r; [discriminate|simpl; lia].
  - destruct (IH _ H) as (Hall & Hdot & Hlen).
    cbn [JS.all_chars JS.includes_char String.length].
    rewrite Hc, Hall, Hdot, orb_true_r. repeat split.
    destruct seen; lia.
Qed.

Lemma email_local_spec : forall s seen,
  email_local seen s = true ->
  exists local domain,
    s = local +:+ String "@" domain
    /\ JS.all_chars email_char local = true
    /\ (if seen then 0 else 1) <= String.length local
    /\ email_domain false domain = true.
Proof.
  induction s as [|c r IH]; intros seen H; [discriminate|].
  cbn [email_local] in H. destruct (JS.ascii_eqb c "@") eqn:E.
  - apply andb_true_iff in H as [-> H]. apply Ascii.eqb_eq in E. subst c.
    exists EmptyString, r. repeat split; auto.
  - apply andb_true_iff in H as [Hc H].
    destruct (IH _ H) as (local & domain & -> & Hall & _ & Hd).
    exists (String c local), domain. rewrite append_cons.
    cbn [JS.all_chars String.length]. rewrite Hc, Hall. repeat split; auto.
    destruct seen; lia.
Qed.

Lemma lower_char_idempotent c : lower_char (lower_char c) = lower_char c.
Proof. destruct c as [[] [] [] [] [] [] [] []]; reflexivity. Qed.

Lemma lower_char_ws c : JS.is_ws (lower_char c) = JS.is_ws c.
Proof. destruct c as [[] [] [] [] [] [] [] []]; reflexivity. Qed.

Lemma toLowerCase_idempotent s : toLowerCase (toLowerCase s) = toLowerCase s.
Proof.
  induction s as [|c r IH]; [reflexivity|].
  simpl. now rewrite lower_char_idempotent, IH.
Qed.

Lemma toLowerCase_trimStart s :
  JS.trimStart (toLowerCase s) = toLowerCase (JS.trimStart s).
Proof.
  induction s as [|c r IH]; [reflexivity|].
  cbn [toLowerCase JS.trimStart]. rewrite lower_char_ws.
  destruct (JS.is_ws c); [exact IH|reflexivity].
Qed.

Lemma toLowerCase_trimEnd s :
  JS.trimEnd (toLowerCase s) = toLowerCase (JS.trimEnd s).
Proof.
  induction s as [|c r IH]; [reflexivity|].
  cbn [toLowerCase JS.trimEnd]. rewrite lower_char_ws, IH.
  destruct (JS.trimEnd r); destruct (JS.is_ws c); reflexivity.
Qed.

Lemma toLowerCase_trim s : JS.trim (toLowerCase s) = toLowerCase (JS.trim s).
Proof. unfold JS.trim. now rewrite toLowerCase_trimStart, toLowerCase_trimEnd. Qed.

Lemma count_char_class p c s :
  JS.all_chars p s = true -> (forall d, p d = true -> JS.ascii_eqb d c = false) ->
  count_char c s = 0.
Proof.
  intros Hall Hp. induction s as [|d s IH]; [reflexivity|].
  simpl in *. apply andb_true_iff in Hall as [Hd Hs].
  now rewrite (Hp _ Hd), (IH Hs).
Qed.

(** X21. An address that [validateEmail] accepts is returned trimmed and in
    lower case, in at most 254 characters; it is a local part of at least
    one character, one [@], and a domain of at least three characters
    with a dot in it; it has exactly one [@] and, in both parts, no white
    space. *)
Theorem valid_email_shape (email : string) :
  isValid (validateEmail email) = true ->
  exists local domain,
    sanitizedValue (validateEmail email) = Some (local +:+ String "@" domain)
    /\ local +:+ String "@" domain = toLowerCase (JS.trim email)
    /\ toLowerCase (local +:+ String "@" domain) = local +:+ String "@" domain
    /\ String.length (local +:+ String "@" domain) <= 254
    /\ 1 <= String.length local
    /\ 3 <= String.length domain
    /\ JS.includes_char domain "." = true
    /\ count_char "@" (local +:+ String "@" domain) = 1
    /\ JS.all_chars (fun c => negb (JS.is_ws c)) (local +:+ String "@" domain) = true.
Proof.
  unfold validateEmail.
  destruct (JS.is_empty email); [discriminate|].
  cbv zeta. rewrite length_zero_empty.
  destruct (JS.is_empty (toLowerCase (JS.trim email))) eqn:Hne; [discriminate|].
  intros H. apply result_valid in H.
  apply push_if_nil in H as [Hre H].
  apply push_if_nil in H as [Hlen _].
  apply negb_false_iff in Hre. apply Nat.ltb_ge in Hlen.
  destruct (email_local_spec _ _ Hre) as (local & domain & Heq & Hlocal & Hl1 & Hd).
  destruct (email_domain_spec _ _ Hd) as (Hdomain & Hdot & Hd3).
  exists local, domain. rewrite <- Heq.
  split; [reflexivity|]. split; [reflexivity|].
  split; [apply toLowerCase_idempotent|].
  split; [exact Hlen|]. split; [exact Hl1|]. split; [exact Hd3|].
  split; [exact Hdot|]. rewrite Heq. split.
  - rewrite count_char_app. cbn [count_char].
    rewrite (count_char_class email_char "@" local Hlocal),
      (count_char_class email_char "@" domain Hdomain);
      [reflexivity | intros d Hd'; now apply email_char_spec in Hd' ..].
  - rewrite all_chars_app. cbn [JS.all_chars].
    assert (Hw : forall s, JS.all_chars email_char s = true ->
                 JS.all_chars (fun c => negb (JS.is_ws c)) s = true).
    { induction s as [|c r IH]; [reflexivity|].
      simpl. intros Hs. apply andb_true_iff in Hs as [Hc Hr].
      apply email_char_spec in Hc as [-> _]. now apply IH. }
    now rewrite (Hw _ Hlocal), (Hw _ Hdomain).
Qed.

Lemma valid_email_shape_witness :
  exists local domain,
    sanitizedValue (validateEmail " John.Doe@Example.COM ")
    = Some (local +:+ String "@" domain)
    /\ local +:+ String "@" domain = "john.doe@example.com".
Proof.
  destruct (valid_email_shape " John.Doe@Example.COM " eq_refl)
    as (local & domain & Hv & Heq & _).
  exists local, domain. split; [exact Hv | exact Heq].
Defined.

(** X22. What a validator returns as sanitized value passes through the
    same validator unchanged: validating the returned file name, site
    name or address again gives the same result, errors included. *)
Theorem sanitized_value_revalidates (input value : string) :
  (sanitizedValue (validateFilename input) = Some value ->
   validateFilename value = validateFilename input)
  /\ (sanitizedValue (validateSiteName input) = Some value ->
      validateSiteName value = validateSiteName input)
  /\ (sanitizedValue (validateEmail input) = Some value ->
      validateEmail value = validateEmail input).
Proof.
  split; [|split].
  - unfold validateFilename.
    destruct (JS.is_empty input); [discriminate|].
    rewrite length_zero_empty.
    destruct (JS.is_empty (JS.trim input)) eqn:Hne; [discriminate|].
    cbv zeta. cbn [result sanitizedValue]. intros [= <-].
    rewrite Hne, trim_idempotent, length_zero_empty, Hne. reflexivity.
  - unfold validateSiteName.
    destruct (JS.is_empty input); [discriminate|].
    rewrite length_zero_empty.
    destruct (JS.is_empty (JS.trim input)) eqn:Hne; [discriminate|].
    cbv zeta. cbn [result sanitizedValue]. intros [= <-].
    rewrite Hne, trim_idempotent, length_zero_empty, Hne. reflexivity.
  - unfold validateEmail.
    destruct (JS.is_empty input); [discriminate|].
    cbv zeta. rewrite length_zero_empty.
    destruct (JS.is_empty (toLowerCase (JS.trim input))) eqn:Hne; [discriminate|].
    cbn [result sanitizedValue]. intros [= <-].
    rewrite Hne, toLowerCase_trim, trim_idempotent, toLowerCase_idempotent,
      length_zero_empty, Hne.
    reflexivity.
Qed.

Lemma sanitized_value_revalidates_witness :
  validateEmail "john.doe@example.com" = validateEmail " John.Doe@Example.COM ".
Proof.
  apply (proj2 (proj2 (sanitized_value_revalidates
                         " John.Doe@Example.COM " "john.doe@example.com"))).
  reflexivity.
Defined.

(** ** A submission run, end to end *)






(** *** Failures of a job *)

Lemma collect_length {A : Type} : forall (slots : list (option A)) rs,
  collect slots = Some rs -> length rs = length slots.
Proof.
  induction slots as [|[a|] slots IH]; intros rs H; simpl in H.
  - now injection H as <-.
  - destruct (collect slots) as [rs'|]; [|discriminate].
    injection H as <-. simpl. now rewrite (IH rs').
  - discriminate.
Qed.

Lemma allSettled_length {A : Type} order (promises : list (Promise A))
    (rs : list (Settled A)) :
  allSettled order promises = Some rs -> length rs = length promises.
Proof.
  unfold allSettled. intros H. apply collect_length in H.
  now rewrite (fold_store_length promises), length_replicate in H.
Qed.

(** Recording the results of a batch raises nothing. *)
Lemma forEach_results_done csvRows batch : forall rs k st,
  k + length rs <= length batch ->
  exists st', forEach_results csvRows batch rs k st = Done st'.
Proof.
  induction rs as [|r rs IH]; intros k st Hk; [now exists st|].
  cbn [forEach_results]. unfold record_result.
  destruct (batch !! k) as [[row rowIndex]|] eqn:E.
  - apply IH. simpl in Hk. lia.
  - apply lookup_ge_None in E. simpl in Hk. lia.
Qed.

Lemma processBatch_not_raised w site form options csvRows order batch st e tr :
  processBatch w site form options csvRows order batch st = Raised e tr -> False.
Proof.
  unfold processBatch.
  destruct (allSettled order _) as [rs|] eqn:E; [|discriminate].
  apply allSettled_length in E. rewrite !length_map in E.
  match goal with
  | |- forEach_results _ _ _ _ ?s = _ -> _ =>
      destruct (forEach_results_done csvRows batch rs 0 s) as (st' & ->);
        [simpl; lia | discriminate]
  end.
Qed.

Lemma batches_loop_not_raised w site form options csvRows e tr : forall fuel i st,
  batches_loop w site form options csvRows fuel i st = Raised e tr -> False.
Proof.
  induction fuel as [|fuel IH]; intros i st; [discriminate|].
  cbn [batches_loop]. destruct (i <? length csvRows)%nat; [|discriminate].
  destruct (processBatch _ _ _ _ _ _ _ _) as [st'| e' tr' |] eqn:E.
  - apply IH.
  - now apply processBatch_not_raised in E.
  - discriminate.
Qed.

(** X24. A job ends in failure only before anything is sent: whenever
    [execute] returns a failure, no request has been sent and no pause
    taken.  Once the submissions have started the job, if it returns,
    returns its summary, however many rows failed. *)
Theorem failure_only_before_requests (fuel : nat) (w : World)
    (parameters : FormBulkSubmitParameters) (error : string) (tr : list Event) :
  execute fuel w parameters = Some (ResFailure error, tr) ->
  count_events is_fetch tr = 0 /\ count_events is_delay tr = 0.
Proof.
  unfold execute. cbv zeta.
  destruct (default op_submit (operation parameters)); [|discriminate..].
  pose proof (parseCsvData_no_io (default EmptyString (csvData parameters))) as Hio.
  destruct (parseCsvData (default EmptyString (csvData parameters)))
    as [evs [csvRows | e]]; cbn [fst] in Hio.
  - destruct (length csvRows =? 0)%nat.
    + intros [= <- <-].
      split; unfold count_events; cbn [List.filter is_fetch is_delay];
      apply Hio; reflexivity.
    + destruct (default false (validateOnly parameters)); [discriminate|].
      unfold processBulkSubmissions.
      destruct (batches_loop _ _ _ _ _ _ _ _) as [st | e tr' |] eqn:E;
        [discriminate | | discriminate].
      now apply batches_loop_not_raised in E.
  - intros [= <- <-].
    split; unfold count_events; cbn [List.filter is_fetch is_delay];
      apply Hio; reflexivity.
Qed.

Lemma failure_only_before_requests_witness :
  exists error tr,
    execute 10 Sample.world_ok (Sample.submit_params Sample.csv_formula false 5)
    = Some (ResFailure error, tr)
    /\ count_events is_fetch tr = 0 /\ count_events is_delay tr = 0.
Proof.
  eexists _, _. split; [vm_compute; reflexivity|].
  eapply (failure_only_before_requests 10 Sample.world_ok
            (Sample.submit_params Sample.csv_formula false 5)).
  vm_compute. reflexivity.
Defined.

(** ** A body that never ends *)

(** X25. The promise of [processRow] is never rejected.  It stays pending
    exactly when the response arrives before the abort timer fires, which
    disarms the timer, and the wait for the body never ends.  When the
    timer fires, because [fetch] has not settled within the timeout, the
    row gets the outcome of a timeout: [success = false], the error
    [Request timeout] and no status code. *)
Theorem processRow_promise (w : World) (site form : string) (row : Row)
    (n : nat) (timeout : float) :
  (forall e, snd (processRow w site form row n timeout) <> Settles (Rejected e))
  /\ (snd (processRow w site form row n timeout) = Pending <->
      stalls timeout (net w n (fetch_request site form row n)) = true)
  /\ (timer_fires timeout (net w n (fetch_request site form row n)) = true ->
      exists r,
        snd (processRow w site form row n timeout) = Settles (Fulfilled r) /\
        success r = false /\ error r = Some "Request timeout" /\
        statusCode r = None).
Proof.
  split; [|split].
  - intros e H. exact (processRow_not_rejected w site form row n timeout e H).
  - apply processRow_pending.
  - apply processRow_timeout.
Qed.

(** A batch with a row whose body never ends stays pending. *)
Lemma processBatch_pending w site form options csvRows order batch st m item :
  batch !! m = Some item ->
  stalls (requestTimeout options)
    (net w (snd item + 1) (fetch_request site form (fst item) (snd item + 1))) = true ->
  processBatch w site form options csvRows order batch st = NoResult.
Proof.
  intros Hm Hs. unfold processBatch.
  rewrite (allSettled_pending order _ m); [reflexivity|].
  rewrite !list_lookup_fmap, Hm. cbn [fmap option_fmap option_map].
  f_equal. now apply processRow_pending.
Qed.

(** X26. One body that never ends hangs the whole job: when the response
    to the request of some row arrives in time and its body never ends,
    [processBulkSubmissions] never returns, whatever the other rows, the
    batch size, the completion order and the number of loop iterations
    allowed. *)
Theorem stalled_row_hangs_the_job (w : World) (site form : string)
    (options : Options) (csvRows : list Row) (fuel : nat) (trace0 : list Event)
    (j : nat) (row : Row) :
  csvRows !! j = Some row ->
  stalls (requestTimeout options)
    (net w (j + 1) (fetch_request site form row (j + 1))) = true ->
  processBulkSubmissions w site form options csvRows fuel trace0 = NoResult.
Proof.
  intros Hrow Hs. unfold processBulkSubmissions.
  generalize {| results := []; processedCount := 0; trace := trace0 |}.
  assert (Hi : 0 <= j) by lia. revert Hi. generalize 0 as i.
  induction fuel as [|fuel IH]; intros i Hi st; [reflexivity|].
  cbn [batches_loop].
  pose proof (lookup_lt_Some _ _ _ Hrow) as Hj.
  destruct (i <? length csvRows)%nat eqn:E; [|apply Nat.ltb_ge in E; lia].
  destruct (decide (j < i + maxConcurrentRequests options)) as [Hin | Hout].
  - rewrite (processBatch_pending w site form options csvRows _ _ st (j - i) (row, j));
      [reflexivity | | exact Hs].
    rewrite batch_at_lookup. destruct (decide (j - i < _)) as [_|]; [|lia].
    replace (i + (j - i)) with j by lia. now rewrite Hrow.
  - destruct (processBatch _ _ _ _ _ _ _ _) as [st' | e tr |] eqn:Eb.
    + apply IH. lia.
    + now apply processBatch_not_raised in Eb.
    + reflexivity.
Qed.

Lemma stalled_row_hangs_the_job_witness :
  processBulkSubmissions Sample.world_stalled "100" "X" Sample.options_2
    Sample.rows_3 1000 [] = NoResult.
Proof.
  apply (stalled_row_hangs_the_job Sample.world_stalled "100" "X" Sample.options_2
           Sample.rows_3 1000 [] 2 [("a", "5"); ("b", "6")]); reflexivity.
Defined.
